(** * Community feed: comment tree, 24-hour leaderboard, like transition
    and the frontend like handlers.

    The backend functions are the ones documented in EXPLAINER.md
    ([build_comment_tree], [leaderboard], both versions of [like]); the
    frontend part covers [fetchApi] of api.js, the loaders and handlers
    of App.jsx and PostDetail.jsx, and the components CommentTree.jsx and
    Leaderboard.jsx.  Timestamps are integers (microseconds), identifiers are
    integers, Python dictionaries are finite maps where only lookups
    matter and insertion-ordered association lists where the iteration
    order is observable. *)

From stdpp Require Import gmap strings list sorting.
From Stdlib Require Import ZArith Lia.

Local Open Scope Z_scope.

(** ** Data model (Django models) *)

Record Post := { post_id : Z; post_author : Z }.

Record Comment := {
  comment_id : Z;
  comment_post : Z;
  comment_author : Z;
  parent_id : option Z;
  comment_content : string;
  comment_created_at : Z
}.

(** ** The comment tree *)

(** One iteration of the loop of [build_comment_tree]:
    [if parent_id not in tree: tree[parent_id] = []] followed by
    [tree[parent_id].append(comment)]. *)
Definition tree_step (tree : gmap (option Z) (list Comment)) (comment : Comment)
    : gmap (option Z) (list Comment) :=
  let tree1 :=
    match tree !! parent_id comment with
    | None => <[parent_id comment := []]> tree
    | Some _ => tree
    end in
  <[parent_id comment := default [] (tree1 !! parent_id comment) ++ [comment]]> tree1.

(** [build_comment_tree(comments)]: groups the flat list by [parent_id]. *)
Definition build_comment_tree (comments : list Comment)
    : gmap (option Z) (list Comment) :=
  foldl tree_step ∅ comments.

(** The subsequence of the input restricted to one parent. *)
Definition children_of (comments : list Comment) (key : option Z) : list Comment :=
  filter (fun c => parent_id c = key) comments.

(** Creation order of comments. *)
Definition created_le (a b : Comment) : Prop :=
  comment_created_at a ≤ comment_created_at b.

(** A node of the nested response: the record and its replies. *)
#[warnings="-register-all"]
Inductive CommentNode := Node (record : Comment) (replies : list CommentNode).

Definition node_record (n : CommentNode) : Comment :=
  match n with Node c _ => c end.

Definition node_replies (n : CommentNode) : list CommentNode :=
  match n with Node _ r => r end.

(** Modelled from the spec: the materialization pass that turns the
    grouping into a forest is not part of the documented backend code.
    The spec describes it as a recursive materialization starting from the
    null-parent bucket that attaches each node's children by looking up
    its own id in the grouping.  The recursion depth is bounded by [fuel];
    [None] means the bound was reached. *)
Fixpoint materialize (fuel : nat) (tree : gmap (option Z) (list Comment))
    (key : option Z) : option (list CommentNode) :=
  match fuel with
  | O => None
  | S n =>
      mapM (fun c =>
              match materialize n tree (Some (comment_id c)) with
              | Some r => Some (Node c r)
              | None => None
              end)
           (default [] (tree !! key))
  end.

(** Modelled from the spec: [buildTree] is the grouping of
    [build_comment_tree] followed by the materialization from the null
    bucket; a nesting deeper than the number of comments cannot occur
    without a repeated id, so that is the recursion bound. *)
Definition buildTree (comments : list Comment) : option (list CommentNode) :=
  materialize (S (length comments)) (build_comment_tree comments) None.

(** Modelled from the spec: section 4.1 asks that a comment whose parent
    is itself, if detected, is treated as a root-level fallback.  The
    detection compares [parent_id] with the comment's own id, and the
    fallback places the comment as a comment without parent. *)
Definition root_fallback (c : Comment) : Comment :=
  if decide (parent_id c = Some (comment_id c))
  then {| comment_id := comment_id c; comment_post := comment_post c;
          comment_author := comment_author c; parent_id := None;
          comment_content := comment_content c;
          comment_created_at := comment_created_at c |}
  else c.

(** Modelled from the spec: [buildTree] with the self-parent detection of
    section 4.1 in front of the grouping and the materialization. *)
Definition buildTree_fallback (comments : list Comment) : option (list CommentNode) :=
  buildTree (root_fallback <$> comments).

(** All nodes of a subtree, pre-order. *)
Fixpoint nodes (n : CommentNode) : list CommentNode :=
  match n with
  | Node c r => Node c r :: (r ≫= nodes)
  end.

Definition forest_nodes (f : list CommentNode) : list CommentNode :=
  f ≫= nodes.

(** The records of a forest, pre-order. *)
Definition flatten (f : list CommentNode) : list Comment :=
  node_record <$> forest_nodes f.

(** [attached comments n c nd]: [nd] is [c] with the replies that the
    materialization finds with fuel [n]. *)
Definition attached (comments : list Comment) (n : nat) (c : Comment)
    (nd : CommentNode) : Prop :=
  ∃ r, materialize n (build_comment_tree comments) (Some (comment_id c)) = Some r
       ∧ nd = Node c r.

(** [up comments key c]: [c] descends, through parent links of the input,
    from a comment of the bucket of [key]. *)
Inductive up (comments : list Comment) (key : option Z) : Comment → Prop :=
  | up_base c : c ∈ children_of comments key → up comments key c
  | up_step c d :
      c ∈ children_of comments (Some (comment_id d)) → up comments key d →
      up comments key c.

(** A path from a comment up to a root, the comment first. *)
Inductive chain (comments : list Comment) : list Comment → Prop :=
  | chain_root c : c ∈ children_of comments None → chain comments [c]
  | chain_cons c d l :
      c ∈ children_of comments (Some (comment_id d)) → chain comments (d :: l) →
      chain comments (c :: d :: l).

(** ** The 24-hour leaderboard *)

(** Like rows.  The foreign keys are held as the referenced objects, as
    the ORM does, so that [post__author] and [comment__author] are field
    accesses. *)
Record PostLike := {
  postlike_user : Z;
  postlike_post : Post;
  postlike_created_at : Z
}.

Record CommentLike := {
  commentlike_user : Z;
  commentlike_comment : Comment;
  commentlike_created_at : Z
}.

(** What the backend functions read and write: the system clock and the
    two like tables, in storage order. *)
Record World := {
  clock : Z;
  post_likes : list PostLike;
  comment_likes : list CommentLike
}.

(** [timezone.now()] reads the clock of the world. *)
Definition timezone_now (w : World) : Z := clock w.

(** [timedelta(hours=h)] in microseconds. *)
Definition timedelta_hours (h : Z) : Z := h * 3600 * 1000000.

(** A Python dict from user id to karma, as an association list in
    insertion order: [items()] iterates in that order, and assigning to a
    key that is present keeps its position. *)
Fixpoint dict_get (d : list (Z * Z)) (key : Z) (dflt : Z) : Z :=
  match d with
  | [] => dflt
  | (u, k) :: d' => if decide (u = key) then k else dict_get d' key dflt
  end.

Fixpoint dict_set (key v : Z) (d : list (Z * Z)) : list (Z * Z) :=
  match d with
  | [] => [(key, v)]
  | (u, k) :: d' =>
      if decide (u = key) then (u, v) :: d' else (u, k) :: dict_set key v d'
  end.

(** [.values(key).annotate(n=Count('id'))]: one row per distinct key with
    the number of rows of that key.  The queries have no [order_by], so
    the order of the groups is the database's; the rows are produced here
    in order of first occurrence, which is one of the orders a database
    may return.  What depends on the order of the rows is stated on
    [sorted_users] below, for every order. *)
Definition values_count (keys : list Z) : list (Z * Z) :=
  foldl (fun rows u => dict_set u (dict_get rows u 0 + 1) rows) [] keys.

(** [PostLike.objects.filter(created_at__gte=last_24h)
      .values('post__author').annotate(karma=Count('id') * 5)]. *)
Definition post_karma (last_24h : Z) (table : list PostLike) : list (Z * Z) :=
  (fun row => (row.1, row.2 * 5)) <$>
    values_count
      ((fun l => post_author (postlike_post l)) <$>
         filter (fun l => last_24h ≤ postlike_created_at l) table).

(** [CommentLike.objects.filter(created_at__gte=last_24h)
      .values('comment__author').annotate(karma=Count('id'))]. *)
Definition comment_karma (last_24h : Z) (table : list CommentLike) : list (Z * Z) :=
  values_count
    ((fun l => comment_author (commentlike_comment l)) <$>
       filter (fun l => last_24h ≤ commentlike_created_at l) table).

(** [for entry in rows: user_karma[uid] = user_karma.get(uid, 0) + entry['karma']]. *)
Definition combine_karma (user_karma rows : list (Z * Z)) : list (Z * Z) :=
  foldl (fun d entry => dict_set entry.1 (dict_get d entry.1 0 + entry.2) d)
        user_karma rows.

(** The dict [user_karma] after both loops of [leaderboard]. *)
Definition user_karma (w : World) : list (Z * Z) :=
  let now := timezone_now w in
  let last_24h := now - timedelta_hours 24 in
  combine_karma (combine_karma [] (post_karma last_24h (post_likes w)))
                (comment_karma last_24h (comment_likes w)).

(** [sorted(items, key=..., reverse=True)]: Python's sort is stable, also
    with [reverse=True]; elements with equal keys keep their order.  An
    insertion sort that places an element before the first element whose
    key is not larger computes the same list. *)
Fixpoint insert_reverse {A} (key : A → Z) (x : A) (l : list A) : list A :=
  match l with
  | [] => [x]
  | y :: l' =>
      if decide (key x < key y) then y :: insert_reverse key x l'
      else x :: y :: l'
  end.

Definition sorted_reverse {A} (key : A → Z) (l : list A) : list A :=
  foldr (insert_reverse key) [] l.

(** [sorted_users] of [leaderboard]: the top 5 (user id, karma) pairs. *)
Definition leaderboard (w : World) : list (Z * Z) :=
  take 5 (sorted_reverse snd (user_karma w)).

(** Lines 92 to 103 of [leaderboard] on their own: the two loops over
    the rows that the two queries returned, in the order they were
    returned, and the sort and cut of the items. *)
Definition karma_mapping (post_rows comment_rows : list (Z * Z)) : list (Z * Z) :=
  combine_karma (combine_karma [] post_rows) comment_rows.

Definition sorted_users (post_rows comment_rows : list (Z * Z)) : list (Z * Z) :=
  take 5 (sorted_reverse snd (karma_mapping post_rows comment_rows)).

(** Sum of the karma values of a list of (user id, karma) rows. *)
Definition total_karma (rows : list (Z * Z)) : Z :=
  foldr (fun row acc => row.2 + acc) 0 rows.

(** Sum of the karma values of the rows of one user. *)
Definition karma_of_rows (u : Z) (rows : list (Z * Z)) : Z :=
  total_karma (filter (fun row => row.1 = u) rows).

(** The start of the window read by [leaderboard]. *)
Definition last_24h (w : World) : Z := timezone_now w - timedelta_hours 24.

(** The like events that pass [created_at__gte=last_24h]. *)
Definition qualifying_post_likes (w : World) : list PostLike :=
  filter (fun l => last_24h w ≤ postlike_created_at l) (post_likes w).

Definition qualifying_comment_likes (w : World) : list CommentLike :=
  filter (fun l => last_24h w ≤ commentlike_created_at l) (comment_likes w).

(** [extends_with_stale created cutoff s s']: [s'] is [s] with further
    events added, each of them created before [cutoff]. *)
Inductive extends_with_stale {A} (created : A → Z) (cutoff : Z)
    : list A → list A → Prop :=
  | stale_nil : extends_with_stale created cutoff [] []
  | stale_keep e s s' :
      extends_with_stale created cutoff s s' →
      extends_with_stale created cutoff (e :: s) (e :: s')
  | stale_add e s s' :
      created e < cutoff →
      extends_with_stale created cutoff s s' →
      extends_with_stale created cutoff s (e :: s').

(** ** The like transition *)

Record Response := { status : Z; detail : string }.

(** Outcome of a database write guarded by [unique_post_like]. *)
Inductive Result (A : Type) := Ok (a : A) | IntegrityError.
Arguments Ok {A} a.
Arguments IntegrityError {A}.

Definition same_like (user : Z) (post : Post) (l : PostLike) : bool :=
  bool_decide (postlike_user l = user) && bool_decide (post_id (postlike_post l) = post_id post).

(** The state of the pair (user, post): Liked when a row for it exists. *)
Definition has_like (user : Z) (post : Post) (w : World) : bool :=
  existsb (same_like user post) (post_likes w).

(** [PostLike.objects.create(user=user, post=post)]: rejected by the
    unique constraint on (user, post); [created_at] is set on insertion. *)
Definition create (user : Z) (post : Post) (w : World) : Result World :=
  if has_like user post w then IntegrityError
  else Ok {| clock := clock w;
             post_likes := post_likes w ++
               [{| postlike_user := user; postlike_post := post;
                   postlike_created_at := clock w |}];
             comment_likes := comment_likes w |}.

(** [PostLike.objects.get_or_create(user=user, post=post)]: the flag says
    whether a row was created. *)
Definition get_or_create (user : Z) (post : Post) (w : World) : Result (World * bool) :=
  if has_like user post w then Ok (w, false)
  else match create user post w with
       | Ok w' => Ok (w', true)
       | IntegrityError => IntegrityError
       end.

Definition HTTP_400_BAD_REQUEST : Z := 400.
Definition HTTP_200_OK : Z := 200.

(** The fixed [like] view: a failed transaction leaves the world as it was. *)
Definition like (user : Z) (post : Post) (w : World) : World * Response :=
  match get_or_create user post w with
  | Ok (w', created) =>
      if negb created
      then (w', {| status := HTTP_400_BAD_REQUEST; detail := "Already liked this post" |})
      else (w', {| status := HTTP_200_OK; detail := "Post liked successfully" |})
  | IntegrityError =>
      (w, {| status := HTTP_400_BAD_REQUEST; detail := "Already liked this post" |})
  end.

(** ** The frontend: fetchApi and the like handlers *)

(** A JSON value as [response.json()] returns it.  A number is kept as
    the text JavaScript prints for it, together with whether it is zero. *)
#[warnings="-register-all"]
Inductive Json :=
  | JNull
  | JBool (b : bool)
  | JNumber (text : string) (is_zero : bool)
  | JString (s : string)
  | JArray (items : list Json)
  | JObject (fields : list (string * Json)).

(** JavaScript truthiness: [null], [false], 0 and the empty string are
    falsy; arrays and objects are truthy, also when empty. *)
Definition truthy (v : Json) : bool :=
  match v with
  | JNull => false
  | JBool b => b
  | JNumber _ is_zero => negb is_zero
  | JString s => negb (bool_decide (s = ""))
  | JArray _ => true
  | JObject _ => true
  end.

Fixpoint join_comma (l : list string) : string :=
  match l with
  | [] => ""
  | [x] => x
  | x :: l' => x +:+ "," +:+ join_comma l'
  end.

(** JavaScript's ToString, as [new Error(value)] applies it to its
    argument: an array is its elements joined by commas, with [null]
    elements printed as nothing; an object is "[object Object]". *)
Fixpoint to_string (v : Json) : string :=
  match v with
  | JNull => "null"
  | JBool true => "true"
  | JBool false => "false"
  | JNumber text _ => text
  | JString s => s
  | JArray items =>
      join_comma (map (fun x => match x with JNull => "" | _ => to_string x end) items)
  | JObject _ => "[object Object]"
  end.

(** The value of the property [name] among the fields of a parsed
    object: [JSON.parse] keeps the last of repeated keys; [None] is
    [undefined]. *)
Fixpoint get_field (name : string) (fields : list (string * Json)) : option Json :=
  match fields with
  | [] => None
  | (k, v) :: fields' =>
      match get_field name fields' with
      | Some v' => Some v'
      | None => if decide (k = name) then Some v else None
      end
  end.

(** [value.detail] for a value that is not [null]: only an object can
    have the property. *)
Definition detail_of (value : Json) : option Json :=
  match value with
  | JObject fields => get_field "detail" fields
  | _ => None
  end.

(** The body of a response: text that [response.json()] rejects with a
    SyntaxError of the given message, or the value it parses to. *)
Inductive Body :=
  | NotJson (syntax_error : string)
  | Parsed (value : Json).

(** What [fetch] resolves to: [response.ok] and the body. *)
Record HttpResponse := { ok : bool; body : Body }.

(** The message of the TypeError that reading [null.detail] throws (the
    wording is the engine's; this is V8's). *)
Definition TypeError_null_detail : string :=
  "Cannot read properties of null (reading 'detail')".

(** [fetchApi]: on a response that is not ok, the body is parsed, with
    [{detail: 'Request failed'}] standing in for a body that does not
    parse, and [new Error(error.detail || 'Request failed')] is thrown;
    on an ok response [response.json()] is returned, which rejects for a
    body that does not parse.  [inl message] is the message of the error
    thrown, [inr data] the parsed data. *)
Definition fetchApi (response : HttpResponse) : string + Json :=
  if negb (ok response) then
    match body response with
    | NotJson _ => inl "Request failed"
    | Parsed JNull => inl TypeError_null_detail
    | Parsed error =>
        match detail_of error with
        | Some d => if truthy d then inl (to_string d) else inl "Request failed"
        | None => inl "Request failed"
        end
    end
  else
    match body response with
    | NotJson syntax_error => inl syntax_error
    | Parsed data => inr data
    end.

(** The endpoints the handlers call. *)
Inductive Endpoint :=
  | LikePost (id : Z)
  | UnlikePost (id : Z)
  | LikeComment (id : Z)
  | UnlikeComment (id : Z).

Definition likePost (server : Endpoint → HttpResponse) (id : Z) := fetchApi (server (LikePost id)).
Definition unlikePost (server : Endpoint → HttpResponse) (id : Z) := fetchApi (server (UnlikePost id)).
Definition likeComment (server : Endpoint → HttpResponse) (id : Z) := fetchApi (server (LikeComment id)).
Definition unlikeComment (server : Endpoint → HttpResponse) (id : Z) := fetchApi (server (UnlikeComment id)).

(** JavaScript's [String.prototype.includes]: some suffix of [s] starts
    with [search]. *)
Fixpoint includes (s search : string) : bool :=
  if String.prefix search s then true
  else match s with
       | EmptyString => false
       | String _ s' => includes s' search
       end.

(** The component state a handler touches: the [error] state variable and
    the number of reloads ([loadData()] / [loadPost()]) it has started. *)
Record UiState := { error : option string; reloads : nat }.

Definition setError (message : string) (st : UiState) : UiState :=
  {| error := Some message; reloads := reloads st |}.

Definition startReload (st : UiState) : UiState :=
  {| error := error st; reloads := S (reloads st) |}.

(** The [catch] block shared by the three handlers:
    [if (!err.message.includes('Already')) setError(err.message)]. *)
Definition catch_like_error (message : string) (st : UiState) : UiState :=
  if negb (includes message "Already") then setError message st else st.

(** [handleLikePost(postId, hasLiked)] of App.jsx. *)
Definition App_handleLikePost (server : Endpoint → HttpResponse)
    (postId : Z) (hasLiked : bool) (st : UiState) : UiState :=
  match (if hasLiked then unlikePost server postId else likePost server postId) with
  | inr _ => startReload st
  | inl message => catch_like_error message st
  end.

(** [handleLikePost()] of PostDetail.jsx; [user_has_liked] is
    [post.user_has_liked] of the loaded post. *)
Definition PostDetail_handleLikePost (server : Endpoint → HttpResponse)
    (postId : Z) (user_has_liked : bool) (st : UiState) : UiState :=
  match (if user_has_liked then unlikePost server postId else likePost server postId) with
  | inr _ => startReload st
  | inl message => catch_like_error message st
  end.

(** [handleLikeComment(commentId, hasLiked)] of PostDetail.jsx. *)
Definition PostDetail_handleLikeComment (server : Endpoint → HttpResponse)
    (commentId : Z) (hasLiked : bool) (st : UiState) : UiState :=
  match (if hasLiked then unlikeComment server commentId else likeComment server commentId) with
  | inr _ => startReload st
  | inl message => catch_like_error message st
  end.

(** ** The first version of the like view, and interleaved requests *)

(** [PostLike.objects.create(user=..., post=post)] on the model without
    [unique_post_like]: EXPLAINER.md adds the constraint as part of the
    fix, so the first view inserts unconditionally. *)
Definition create_unconstrained (user : Z) (post : Post) (w : World) : World :=
  {| clock := clock w;
     post_likes := post_likes w ++
       [{| postlike_user := user; postlike_post := post;
           postlike_created_at := clock w |}];
     comment_likes := comment_likes w |}.

(** The first [like] view of EXPLAINER.md when its [exists()] test was
    answered [found] at an earlier moment and its [create()] runs in [w]:
    another request may have written in between.  200 is the default
    status of [Response]. *)
Definition like_initial_after_check (found : bool) (user : Z) (post : Post)
    (w : World) : World * Response :=
  if found
  then (w, {| status := HTTP_400_BAD_REQUEST; detail := "Already liked" |})
  else (create_unconstrained user post w,
        {| status := HTTP_200_OK; detail := "Liked" |}).

(** The first [like] view run without interruption: [exists()] then
    [create()]. *)
Definition like_initial (user : Z) (post : Post) (w : World) : World * Response :=
  like_initial_after_check (has_like user post w) user post w.

(** The fixed view when the lookup of [get_or_create] was answered
    [found] at an earlier moment and its insertion runs in [w]; the
    constraint violation reaches the [except IntegrityError] branch. *)
Definition like_after_lookup (found : bool) (user : Z) (post : Post)
    (w : World) : World * Response :=
  match (if found then Ok (w, false)
         else match create user post w with
              | Ok w' => Ok (w', true)
              | IntegrityError => IntegrityError
              end) with
  | Ok (w', created) =>
      if negb created
      then (w', {| status := HTTP_400_BAD_REQUEST; detail := "Already liked this post" |})
      else (w', {| status := HTTP_200_OK; detail := "Post liked successfully" |})
  | IntegrityError =>
      (w, {| status := HTTP_400_BAD_REQUEST; detail := "Already liked this post" |})
  end.

(** The constraint [unique_post_like]: at most one row per (user, post). *)
Definition unique_post_like (w : World) : Prop :=
  ∀ user post,
    (length (filter (fun l => same_like user post l = true) (post_likes w)) ≤ 1)%nat.

(** The world when the clock reads [now]. *)
Definition at_time (now : Z) (w : World) : World :=
  {| clock := now; post_likes := post_likes w; comment_likes := comment_likes w |}.

(** A sequence of [like] requests (time, user, post), one after the other. *)
Definition like_all (requests : list (Z * Z * Post)) (w : World) : World :=
  foldl (fun w r => (like r.1.2 r.2 (at_time r.1.1 w)).1) w requests.

(** The HTTP response the browser sees for a view's [Response]:
    [response.ok] holds for the statuses 200 to 299, the body is the JSON
    object with the [detail] field. *)
Definition http_response (r : Response) : HttpResponse :=
  {| ok := bool_decide (200 ≤ status r ≤ 299);
     body := Parsed (JObject [("detail", JString (detail r))]) |}.

(** The number of comments filed in the grouping, all buckets together. *)
Definition bucket_total (tree : gmap (option Z) (list Comment)) : nat :=
  map_fold (fun _ l n => (length l + n)%nat) 0%nat tree.

(** ** The frontend: CommentTree.jsx *)

(** A comment of the nested JSON of a post, with the fields the component
    reads besides the displayed texts. *)
#[warnings="-register-all"]
Inductive JsonComment :=
  JComment (id : Z) (user_has_liked : bool) (like_count : Z)
           (replies : list JsonComment).

Definition json_id (c : JsonComment) : Z :=
  match c with JComment i _ _ _ => i end.

Definition json_replies (c : JsonComment) : list JsonComment :=
  match c with JComment _ _ _ r => r end.

(** What the component renders for one comment: the nesting [depth] it
    is rendered at, whether its list is indented ([depth > 0]), the
    arguments of its [onLike] call, and whether the Reply button and the
    reply form are present. *)
Record RenderedComment := {
  rc_id : Z;
  rc_depth : nat;
  rc_indented : bool;
  rc_onLike : Z * bool;
  rc_reply_button : bool;
  rc_reply_form : bool
}.

Definition maxDepth : nat := 4.

(** [CommentTree({comments, replyingTo, depth})]: every comment of the
    list, each followed by the rendering of its replies at [depth + 1]. *)
Fixpoint render_comment (replyingTo : option Z) (depth : nat) (c : JsonComment)
    : list RenderedComment :=
  match c with
  | JComment i liked _ replies =>
      let actualDepth := Nat.min depth maxDepth in
      {| rc_id := i; rc_depth := depth;
         rc_indented := bool_decide (0 < depth)%nat;
         rc_onLike := (i, liked);
         rc_reply_button := bool_decide (actualDepth < maxDepth)%nat;
         rc_reply_form := bool_decide (replyingTo = Some i) |}
      :: (replies ≫= render_comment replyingTo (S depth))
  end.

Definition CommentTree (replyingTo : option Z) (depth : nat)
    (comments : list JsonComment) : list RenderedComment :=
  comments ≫= render_comment replyingTo depth.

(** The ids of a nested comment list, parents before their replies. *)
Fixpoint json_ids (c : JsonComment) : list Z :=
  match c with
  | JComment i _ _ replies => i :: (replies ≫= json_ids)
  end.

(** ** The frontend: loading and submitting (App.jsx, PostDetail.jsx) *)

(** The JSON of a post as PostDetail.jsx reads it. *)
Record PostJson := {
  pj_id : Z;
  pj_user_has_liked : bool;
  pj_like_count : Z;
  pj_comments : list JsonComment
}.

(** The state variables of [PostDetail], and the number of reloads
    ([loadPost()]) its handlers have started. *)
Record PostDetailState := {
  pd_post : Json;
  pd_loading : bool;
  pd_error : option string;
  pd_newComment : string;
  pd_replyingTo : option Z;
  pd_replyContent : string;
  pd_reloads : nat
}.

(** [useState] initial values of [PostDetail]. *)
Definition PostDetail_initial : PostDetailState :=
  {| pd_post := JNull; pd_loading := true; pd_error := None; pd_newComment := "";
     pd_replyingTo := None; pd_replyContent := ""; pd_reloads := 0 |}.

(** [loadPost()] once [getPost(postId)] has settled with [result]:
    [setPost(data)] or [setError(err.message)], and [setLoading(false)]
    in the [finally] block. *)
Definition loadPost (result : string + Json) (st : PostDetailState)
    : PostDetailState :=
  match result with
  | inr data =>
      {| pd_post := data; pd_loading := false; pd_error := pd_error st;
         pd_newComment := pd_newComment st; pd_replyingTo := pd_replyingTo st;
         pd_replyContent := pd_replyContent st; pd_reloads := pd_reloads st |}
  | inl message =>
      {| pd_post := pd_post st; pd_loading := false; pd_error := Some message;
         pd_newComment := pd_newComment st; pd_replyingTo := pd_replyingTo st;
         pd_replyContent := pd_replyContent st; pd_reloads := pd_reloads st |}
  end.

(** What [PostDetail] returns: the spinner [if (loading)], the error page
    [if (error)] (the empty string is falsy), else the JSX of the post,
    built from [post]; that JSX reads [post.author.username], which
    throws when [post] is still null. *)
Inductive PostDetailView :=
  | LoadingView
  | ErrorView (message : string)
  | PostView (post : Json).

Definition PostDetail_render (st : PostDetailState) : PostDetailView :=
  if pd_loading st then LoadingView
  else match pd_error st with
       | Some message =>
           if decide (message = "") then PostView (pd_post st)
           else ErrorView message
       | None => PostView (pd_post st)
       end.

(** The write endpoints: [createPost(content)] and
    [createComment(postId, content, parentId = null)] with their bodies. *)
Inductive WriteEndpoint :=
  | CreatePost (content : string)
  | CreateComment (post : Z) (content : string) (parent : option Z).

Definition createPost (server : WriteEndpoint → HttpResponse) (content : string) :=
  fetchApi (server (CreatePost content)).

Definition createComment (server : WriteEndpoint → HttpResponse) (postId : Z)
    (content : string) (parentId : option Z) :=
  fetchApi (server (CreateComment postId content parentId)).

(** A row of the leaderboard JSON as Leaderboard.jsx reads it. *)
Record LeaderRow := { lr_id : Z; lr_username : string; lr_karma_24h : Z }.

(** The state variables of [App] that loading and posting touch, and the
    number of reloads ([loadData()]) its handlers have started. *)
Record AppState := {
  app_posts : list PostJson;
  app_leaderboard : list LeaderRow;
  app_newPostContent : string;
  app_loading : bool;
  app_error : option string;
  app_reloads : nat
}.

(** What [getPosts()] resolves to: a paginated object with [results], or
    the bare array. *)
Inductive PostsData :=
  | Paginated (results : list PostJson)
  | BareArray (posts : list PostJson).

(** [postsData.results || postsData]: an array is truthy, also when empty. *)
Definition results_or_self (postsData : PostsData) : list PostJson :=
  match postsData with
  | Paginated results => results
  | BareArray posts => posts
  end.

(** [loadData()] once [Promise.all([getPosts(), getLeaderboard()])] has
    settled: it rejects with the rejection that came first
    ([leaderboard_first] when both reject), else both setters run;
    [setLoading(false)] in the [finally] block. *)
Definition loadData (postsResult : string + PostsData)
    (leaderboardResult : string + list LeaderRow) (leaderboard_first : bool)
    (st : AppState) : AppState :=
  let failed message :=
    {| app_posts := app_posts st; app_leaderboard := app_leaderboard st;
       app_newPostContent := app_newPostContent st; app_loading := false;
       app_error := Some message; app_reloads := app_reloads st |} in
  match postsResult, leaderboardResult with
  | inr postsData, inr leaderboardData =>
      {| app_posts := results_or_self postsData; app_leaderboard := leaderboardData;
         app_newPostContent := app_newPostContent st; app_loading := false;
         app_error := app_error st; app_reloads := app_reloads st |}
  | inl m, inr _ => failed m
  | inr _, inl m => failed m
  | inl m1, inl m2 => failed (if leaderboard_first then m2 else m1)
  end.

Section SubmitHandlers.

(** JavaScript's [String.prototype.trim], left abstract. *)
Variable trim : string → string.

(** [handleCreatePost(e)] of App.jsx. *)
Definition handleCreatePost (server : WriteEndpoint → HttpResponse) (st : AppState)
    : AppState :=
  if decide (trim (app_newPostContent st) = "") then st
  else match createPost server (app_newPostContent st) with
       | inr _ =>
           {| app_posts := app_posts st; app_leaderboard := app_leaderboard st;
              app_newPostContent := ""; app_loading := app_loading st;
              app_error := app_error st; app_reloads := S (app_reloads st) |}
       | inl message =>
           {| app_posts := app_posts st; app_leaderboard := app_leaderboard st;
              app_newPostContent := app_newPostContent st;
              app_loading := app_loading st;
              app_error := Some message; app_reloads := app_reloads st |}
       end.

(** [handleSubmitComment(e)] of PostDetail.jsx. *)
Definition handleSubmitComment (server : WriteEndpoint → HttpResponse) (postId : Z)
    (st : PostDetailState) : PostDetailState :=
  if decide (trim (pd_newComment st) = "") then st
  else match createComment server postId (pd_newComment st) None with
       | inr _ =>
           {| pd_post := pd_post st; pd_loading := pd_loading st;
              pd_error := pd_error st; pd_newComment := "";
              pd_replyingTo := pd_replyingTo st;
              pd_replyContent := pd_replyContent st;
              pd_reloads := S (pd_reloads st) |}
       | inl message =>
           {| pd_post := pd_post st; pd_loading := pd_loading st;
              pd_error := Some message; pd_newComment := pd_newComment st;
              pd_replyingTo := pd_replyingTo st;
              pd_replyContent := pd_replyContent st;
              pd_reloads := pd_reloads st |}
       end.

(** [handleSubmitReply(parentId)] of PostDetail.jsx. *)
Definition handleSubmitReply (server : WriteEndpoint → HttpResponse) (postId : Z)
    (parentId : Z) (st : PostDetailState) : PostDetailState :=
  if decide (trim (pd_replyContent st) = "") then st
  else match createComment server postId (pd_replyContent st) (Some parentId) with
       | inr _ =>
           {| pd_post := pd_post st; pd_loading := pd_loading st;
              pd_error := pd_error st; pd_newComment := pd_newComment st;
              pd_replyingTo := None; pd_replyContent := "";
              pd_reloads := S (pd_reloads st) |}
       | inl message =>
           {| pd_post := pd_post st; pd_loading := pd_loading st;
              pd_error := Some message; pd_newComment := pd_newComment st;
              pd_replyingTo := pd_replyingTo st;
              pd_replyContent := pd_replyContent st;
              pd_reloads := pd_reloads st |}
       end.

End SubmitHandlers.

(** ** The frontend: Leaderboard.jsx *)

(** The badge colour of a row, by its index. *)
Inductive Badge := Yellow | Gray300 | Amber | Gray200.

Definition badge_of (index : nat) : Badge :=
  if decide (index = 0%nat) then Yellow
  else if decide (index = 1%nat) then Gray300
  else if decide (index = 2%nat) then Amber
  else Gray200.

Record RenderedRow := {
  rr_key : Z;
  rr_rank : nat;
  rr_badge : Badge;
  rr_username : string;
  rr_karma : Z
}.

(** [Leaderboard({users})]: [None] is the text "No karma earned yet
    today", shown when [users.length === 0]. *)
Definition Leaderboard (users : list LeaderRow) : option (list RenderedRow) :=
  if decide (length users = 0%nat) then None
  else Some (imap (fun index user =>
                     {| rr_key := lr_id user; rr_rank := (index + 1)%nat;
                        rr_badge := badge_of index;
                        rr_username := lr_username user;
                        rr_karma := lr_karma_24h user |}) users).

(** ** Sample data *)

Definition mkc (i : Z) (p : option Z) (t : Z) : Comment :=
  {| comment_id := i; comment_post := 1; comment_author := 1;
     parent_id := p; comment_content := "c"; comment_created_at := t |}.

Definition hour : Z := timedelta_hours 1.

(** A like by [liker] of post [post] written by [author], at time [t]. *)
Definition mkpl (liker post author t : Z) : PostLike :=
  {| postlike_user := liker;
     postlike_post := {| post_id := post; post_author := author |};
     postlike_created_at := t |}.

(** A like by [liker] of comment [comment] written by [author], at time [t]. *)
Definition mkcl (liker comment author t : Z) : CommentLike :=
  {| commentlike_user := liker;
     commentlike_comment :=
       {| comment_id := comment; comment_post := 1; comment_author := author;
          parent_id := None; comment_content := "c"; comment_created_at := 0 |};
     commentlike_created_at := t |}.

(** Scenario C: now is hour 100; one like of a post of user 1 an hour
    ago, one 30 hours ago, one like of a comment of user 2 two hours ago. *)
Definition world_C : World :=
  {| clock := 100 * hour;
     post_likes := [mkpl 8 10 1 (99 * hour); mkpl 9 10 1 (70 * hour)];
     comment_likes := [mkcl 9 20 2 (98 * hour)] |}.

(** Scenario C without the 30-hour-old like. *)
Definition world_C_recent : World :=
  {| clock := 100 * hour;
     post_likes := [mkpl 8 10 1 (99 * hour)];
     comment_likes := [mkcl 9 20 2 (98 * hour)] |}.

(** User 2 earns 5 karma with one liked post, user 1 with one comment
    liked by five users, all within the window. *)
Definition world_tie : World :=
  {| clock := 100 * hour;
     post_likes := [mkpl 3 10 2 (99 * hour)];
     comment_likes := [mkcl 3 20 1 (95 * hour); mkcl 4 20 1 (96 * hour);
                       mkcl 5 20 1 (97 * hour); mkcl 6 20 1 (98 * hour);
                       mkcl 7 20 1 (99 * hour)] |}.

(** Six users with one liked comment each, all within the window. *)
Definition world_six : World :=
  {| clock := 100 * hour;
     post_likes := [];
     comment_likes := [mkcl 9 21 1 (99 * hour); mkcl 9 22 2 (99 * hour);
                       mkcl 9 23 3 (99 * hour); mkcl 9 24 4 (99 * hour);
                       mkcl 9 25 5 (99 * hour); mkcl 9 26 6 (99 * hour)] |}.

(** A like of a post of user 1 exactly 24 hours old, and a like of a post
    of user 3 one microsecond older. *)
Definition world_boundary : World :=
  {| clock := 100 * hour;
     post_likes := [mkpl 8 10 1 (76 * hour); mkpl 9 30 3 (76 * hour - 1)];
     comment_likes := [] |}.

(** User 7 has liked post 3 (written by user 4) two hours ago. *)
Definition post3 : Post := {| post_id := 3; post_author := 4 |}.

Definition world_liked : World :=
  {| clock := 100 * hour;
     post_likes := [{| postlike_user := 7; postlike_post := post3;
                       postlike_created_at := 98 * hour |}];
     comment_likes := [] |}.

(** A server that answers every like request as the [like] view answers
    user 7 liking post 3 in [world_liked]. *)
Definition conflict_server (e : Endpoint) : HttpResponse :=
  http_response (like 7 post3 world_liked).2.

(** A server that answers every like request as the [like] view answers
    user 8 liking post 3 in [world_liked], a first like. *)
Definition liked_server (e : Endpoint) : HttpResponse :=
  http_response (like 8 post3 world_liked).2.

(** A response that is not ok and whose [detail] is the empty array. *)
Definition response_empty_array_detail : HttpResponse :=
  {| ok := false; body := Parsed (JObject [("detail", JArray [])]) |}.

(** Scenario A: a root with two replies, the first of which has a reply. *)
Definition comments_A : list Comment :=
  [mkc 1 None 1; mkc 2 (Some 1) 2; mkc 3 (Some 1) 3; mkc 4 (Some 2) 4].

(** A root, a comment that is its own parent, and a reply to the latter. *)
Definition comments_self : list Comment :=
  [mkc 1 None 1; mkc 7 (Some 7) 2; mkc 8 (Some 7) 3].

(** A component that shows no error and has started no reload. *)
Definition st0 : UiState := {| error := None; reloads := 0 |}.

(** A thread six comments deep: comment 1 with the reply 2, which has
    the reply 3, and so on down to comment 6. *)
Definition json_thread : list JsonComment :=
  [JComment 1 false 0
     [JComment 2 false 0
        [JComment 3 false 0
           [JComment 4 false 0
              [JComment 5 false 0 [JComment 6 false 0 []]]]]]].

(** The row of comment 5 of [json_thread], rendered at depth 4. *)
Definition row_five : RenderedComment :=
  {| rc_id := 5; rc_depth := 4; rc_indented := true; rc_onLike := (5, false);
     rc_reply_button := false; rc_reply_form := false |}.

(** Two rows of leaderboard JSON. *)
Definition users_two : list LeaderRow :=
  [{| lr_id := 1; lr_username := "ann"; lr_karma_24h := 5 |};
   {| lr_id := 2; lr_username := "bob"; lr_karma_24h := 1 |}].

(** Scenario C with the two post likes stored in the other order. *)
Definition world_C_swapped : World :=
  {| clock := 100 * hour;
     post_likes := [mkpl 9 10 1 (70 * hour); mkpl 8 10 1 (99 * hour)];
     comment_likes := [mkcl 9 20 2 (98 * hour)] |}.

(** The tables of scenario C read 100 hours later. *)
Definition world_C_later : World :=
  {| clock := 200 * hour;
     post_likes := [mkpl 8 10 1 (99 * hour); mkpl 9 10 1 (70 * hour)];
     comment_likes := [mkcl 9 20 2 (98 * hour)] |}.

(** * Properties *)

Example scenario_A :
  buildTree comments_A
  = Some [Node (mkc 1 None 1)
            [Node (mkc 2 (Some 1) 2) [Node (mkc 4 (Some 2) 4) []];
             Node (mkc 3 (Some 1) 3) []]].
Proof. vm_compute. reflexivity. Qed.

Example includes_ex : includes "Already liked this post" "Already" = true
  ∧ includes "already liked" "Already" = false ∧ includes "x Already" "Already" = true.
Proof. vm_compute. auto. Qed.

(** ** Grouping by parent *)

Lemma tree_step_lookup tree c p :
  default [] (tree_step tree c !! p)
  = default [] (tree !! p) ++ (if decide (parent_id c = p) then [c] else []).
Proof.
  unfold tree_step.
  destruct (decide (parent_id c = p)) as [->|Hne].
  - rewrite lookup_insert_eq. simpl.
    destruct (tree !! p) eqn:E; simpl.
    + by rewrite E.
    + by rewrite lookup_insert_eq.
  - rewrite lookup_insert_ne by done.
    destruct (tree !! parent_id c) eqn:E.
    + by rewrite app_nil_r.
    + rewrite lookup_insert_ne by done. by rewrite app_nil_r.
Qed.

Lemma foldl_tree_step_lookup cs tree p :
  default [] (foldl tree_step tree cs !! p)
  = default [] (tree !! p) ++ filter (fun c => parent_id c = p) cs.
Proof.
  revert tree. induction cs as [|c cs IH]; intros tree; simpl.
  - by rewrite app_nil_r.
  - rewrite IH, tree_step_lookup, filter_cons.
    destruct (decide (parent_id c = p)); simpl.
    + by rewrite <- app_assoc.
    + by rewrite app_nil_r.
Qed.

(** The bucket of a key holds the comments of that parent, in input order. *)
Lemma build_comment_tree_bucket cs p :
  default [] (build_comment_tree cs !! p) = children_of cs p.
Proof. unfold build_comment_tree. by rewrite foldl_tree_step_lookup, lookup_empty. Qed.

Lemma tree_step_bucket_nonempty tree c p l :
  (∀ q k, tree !! q = Some k → k ≠ []) →
  tree_step tree c !! p = Some l → l ≠ [].
Proof.
  intros Hne. unfold tree_step.
  destruct (decide (parent_id c = p)) as [->|Hp].
  - rewrite lookup_insert_eq. intros [= <-]. by destruct (default _ _).
  - rewrite lookup_insert_ne by done.
    destruct (tree !! parent_id c) eqn:E; [by eauto|].
    rewrite lookup_insert_ne by done. eauto.
Qed.

Lemma build_comment_tree_lookup cs p l :
  build_comment_tree cs !! p = Some l →
  l = children_of cs p ∧ l ≠ [].
Proof.
  intros Hl. split.
  - by rewrite <- build_comment_tree_bucket, Hl.
  - revert p l Hl. unfold build_comment_tree.
    assert (∀ (tree : gmap (option Z) (list Comment)),
               (∀ q k, tree !! q = Some k → k ≠ []) →
               ∀ q k, foldl tree_step tree cs !! q = Some k → k ≠ []) as H.
    { induction cs as [|c cs IH]; intros tree Ht; simpl; [done|].
      apply IH. intros q k. by apply tree_step_bucket_nonempty. }
    apply H. intros q k. by rewrite lookup_empty.
Qed.

(** ** The recursion bound

    Once the materialization returns a forest, more fuel returns the same
    forest. *)

Lemma materialize_more_fuel n tree key f :
  materialize n tree key = Some f → materialize (S n) tree key = Some f.
Proof.
  revert key f. induction n as [|n IH]; intros key f; [done|].
  change (materialize (S (S n)) tree key)
    with (mapM (fun c => match materialize (S n) tree (Some (comment_id c)) with
                         | Some r => Some (Node c r)
                         | None => None
                         end) (default [] (tree !! key))).
  change (materialize (S n) tree key)
    with (mapM (fun c => match materialize n tree (Some (comment_id c)) with
                         | Some r => Some (Node c r)
                         | None => None
                         end) (default [] (tree !! key))).
  rewrite !mapM_Some. intros H. eapply Forall2_impl; [exact H|].
  intros c nd. cbv beta.
  destruct (materialize n tree (Some (comment_id c))) as [r|] eqn:E; [|done].
  by rewrite (IH _ _ E).
Qed.

Lemma materialize_fuel_le n m tree key f :
  (n ≤ m)%nat → materialize n tree key = Some f → materialize m tree key = Some f.
Proof.
  induction 1 as [|m _ IH]; [done|]. intros H. by apply materialize_more_fuel, IH.
Qed.

(** ** Materialization of the forest *)

Section Forest.
Variable comments : list Comment.

Local Abbreviation tree := (build_comment_tree comments).
Local Abbreviation attached := (attached comments).
Local Abbreviation up := (up comments).
Local Abbreviation chain := (chain comments).
Local Abbreviation bucket := (children_of comments).

Lemma materialize_S n key f :
  materialize (S n) tree key = Some f ↔ Forall2 (attached n) (bucket key) f.
Proof.
  simpl. rewrite mapM_Some, build_comment_tree_bucket. split; intros H; (eapply Forall2_impl; [exact H|]);
    intros c nd; unfold attached; simpl.
  - destruct (materialize n _ _) as [r|]; [|done]. intros [= <-]. eauto.
  - intros (r & -> & ->). done.
Qed.

Lemma attached_roots n l f :
  Forall2 (attached n) l f → node_record <$> f = l.
Proof.
  induction 1 as [|c nd l f (r & _ & ->) _ IH]; [done|].
  rewrite fmap_cons. simpl. by f_equal.
Qed.

Lemma attached_elem n l f nd :
  Forall2 (attached n) l f → nd ∈ f → ∃ c, c ∈ l ∧ attached n c nd.
Proof.
  induction 1 as [|c nd' l f Hc _ IH]; intros Hin.
  - by apply not_elem_of_nil in Hin.
  - apply elem_of_cons in Hin as [->|Hin].
    + exists c. split; [left|done].
    + destruct (IH Hin) as (c' & ? & ?). exists c'. split; [by right|done].
Qed.

Lemma bucket_elem c key : c ∈ bucket key ↔ parent_id c = key ∧ c ∈ comments.
Proof. unfold children_of. by rewrite list_elem_of_filter. Qed.

(** The top level of a materialized bucket is the bucket itself. *)
Lemma materialize_roots n key f :
  materialize n tree key = Some f → node_record <$> f = bucket key.
Proof.
  destruct n as [|n]; [done|]. rewrite materialize_S. apply attached_roots.
Qed.

(** A node of a materialized forest sits directly in the materialized
    bucket of some key. *)
Lemma materialize_node n key f nd :
  materialize n tree key = Some f → nd ∈ forest_nodes f →
  ∃ m key' c, c ∈ bucket key' ∧ attached m c nd.
Proof.
  revert key f. induction n as [|n IH]; intros key f Hm Hnd; [done|].
  apply materialize_S in Hm.
  apply list_elem_of_bind in Hnd as (root & Hnd & Hroot).
  destruct (attached_elem _ _ _ _ Hm Hroot) as (c & Hc & r & Hr & ->).
  simpl in Hnd. apply elem_of_cons in Hnd as [->|Hnd].
  - exists n, key, c. split; [done|]. by exists r.
  - by apply (IH (Some (comment_id c)) r).
Qed.

(** Every node's replies are its bucket. *)
Lemma materialize_replies n key f nd :
  materialize n tree key = Some f → nd ∈ forest_nodes f →
  node_record <$> node_replies nd = bucket (Some (comment_id (node_record nd))).
Proof.
  intros Hm Hnd.
  destruct (materialize_node _ _ _ _ Hm Hnd) as (m & key' & c & _ & r & Hr & ->).
  simpl. by apply materialize_roots in Hr.
Qed.

Lemma up_trans key d c :
  up (Some (comment_id d)) c → up key d → up key c.
Proof.
  induction 1 as [c Hc|c e Hc _ IH]; intros Hd.
  - by apply up_step with d.
  - apply up_step with e; auto.
Qed.

Lemma materialize_up n key f c :
  materialize n tree key = Some f → c ∈ flatten f → up key c.
Proof.
  revert key f c. induction n as [|n IH]; intros key f c Hm Hc; [done|].
  apply materialize_S in Hm.
  apply list_elem_of_fmap in Hc as (nd & -> & Hnd).
  apply list_elem_of_bind in Hnd as (root & Hnd & Hroot).
  destruct (attached_elem _ _ _ _ Hm Hroot) as (d & Hd & r & Hr & ->).
  simpl in Hnd. apply elem_of_cons in Hnd as [->|Hnd]; simpl.
  - by apply up_base.
  - apply up_trans with d; [|by apply up_base].
    apply (IH _ r); [done|]. apply list_elem_of_fmap. eauto.
Qed.

Lemma up_elem key c : up key c → c ∈ comments.
Proof. destruct 1 as [c Hc|c d Hc _]; by apply bucket_elem in Hc as [_ ?]. Qed.
End Forest.

(** ** Termination of the materialization when ids are unique *)

Section Termination.
Variable comments : list Comment.
Hypothesis unique_ids : NoDup (comment_id <$> comments).

Local Abbreviation tree := (build_comment_tree comments).
Local Abbreviation chain := (chain comments).
Local Abbreviation bucket := (children_of comments).

Lemma same_id_same_comment c d :
  c ∈ comments → d ∈ comments → comment_id c = comment_id d → c = d.
Proof.
  clear -unique_ids. induction comments as [|x l IH]; intros Hc Hd Heq.
  - by apply not_elem_of_nil in Hc.
  - rewrite fmap_cons in unique_ids. apply NoDup_cons in unique_ids as [Hx Hl].
    apply elem_of_cons in Hc as [->|Hc]; apply elem_of_cons in Hd as [->|Hd].
    + done.
    + exfalso. apply Hx. rewrite Heq. by apply list_elem_of_fmap_2.
    + exfalso. apply Hx. rewrite <- Heq. by apply list_elem_of_fmap_2.
    + by apply IH.
Qed.

Lemma chain_elem l x : chain l → x ∈ l → x ∈ comments.
Proof.
  induction 1 as [c Hc|c d l Hc _ IH]; intros Hx.
  - apply list_elem_of_singleton in Hx as ->. by apply bucket_elem in Hc as [_ ?].
  - apply elem_of_cons in Hx as [->|Hx]; [|by auto].
    by apply bucket_elem in Hc as [_ ?].
Qed.

(** The parent of a member of a path is further up the path. *)
Lemma chain_parent l x :
  chain l → x ∈ l →
  parent_id x = None ∨ ∃ y, y ∈ tail l ∧ parent_id x = Some (comment_id y).
Proof.
  induction 1 as [c Hc|c d l Hc _ IH]; intros Hx.
  - apply list_elem_of_singleton in Hx as ->. left. by apply bucket_elem in Hc as [? _].
  - apply elem_of_cons in Hx as [->|Hx].
    + right. exists d. split; [simpl; left|]. by apply bucket_elem in Hc as [? _].
    + destruct (IH Hx) as [?|(y & Hy & ?)]; [by left|].
      right. exists y. split; [|done]. simpl in *. by right.
Qed.

Lemma chain_NoDup l : chain l → NoDup (comment_id <$> l).
Proof.
  induction 1 as [c Hc|c d l Hc Hch IH].
  - apply NoDup_singleton.
  - rewrite fmap_cons. apply NoDup_cons. split; [|done].
    intros Hin. apply list_elem_of_fmap in Hin as (x & Heq & Hx).
    assert (c = x) as <-.
    { apply same_id_same_comment; [|by eapply chain_elem|done].
      by apply bucket_elem in Hc as [_ ?]. }
    apply bucket_elem in Hc as [Hp _].
    destruct (chain_parent _ _ Hch Hx) as [Hn|(y & Hy & Hy')]; [congruence|].
    simpl in Hy. rewrite Hp in Hy'. injection Hy' as Hid.
    rewrite fmap_cons in IH. apply NoDup_cons in IH as [Hd _].
    apply Hd. rewrite Hid. by apply list_elem_of_fmap_2.
Qed.

Lemma chain_length l : chain l → (length l ≤ length comments)%nat.
Proof.
  intros Hch. rewrite <- (length_fmap comment_id l), <- (length_fmap comment_id comments).
  apply submseteq_length, NoDup_submseteq; [by apply chain_NoDup|].
  intros i Hi. apply list_elem_of_fmap in Hi as (x & -> & Hx).
  apply list_elem_of_fmap_2. by eapply chain_elem.
Qed.

(** Below a path of length [k], fuel [length comments - k + 1] is enough. *)
Lemma materialize_below_chain fuel c l :
  chain (c :: l) → (length comments < fuel + length (c :: l))%nat →
  is_Some (materialize fuel tree (Some (comment_id c))).
Proof.
  revert c l. induction fuel as [|n IH]; intros c l Hch Hlen.
  - apply chain_length in Hch. lia.
  - simpl. apply mapM_is_Some, Forall_forall. intros ch Hin. simpl.
    rewrite build_comment_tree_bucket in Hin.
    destruct (IH ch (c :: l)) as [r Hr].
    + by apply chain_cons.
    + simpl in *. lia.
    + rewrite Hr. by eexists.
Qed.

(** With unique ids the materialization from the null bucket returns. *)
Lemma buildTree_returns : is_Some (buildTree comments).
Proof.
  unfold buildTree. simpl. apply mapM_is_Some, Forall_forall. intros ch Hin. simpl.
  rewrite build_comment_tree_bucket in Hin.
  destruct (materialize_below_chain (length comments) ch []) as [r Hr].
  - by apply chain_root.
  - simpl. lia.
  - rewrite Hr. by eexists.
Qed.

End Termination.

(** ** Claims about the comment tree *)

Lemma StronglySorted_filter_rel {A} (R : relation A) (P : A → Prop)
    `{∀ x, Decision (P x)} (l : list A) :
  StronglySorted R l → StronglySorted R (filter P l).
Proof.
  induction 1 as [|x l Hl IH Hx]; [constructor|].
  rewrite filter_cons. destruct (decide (P x)); [|done].
  constructor; [done|].
  apply Forall_forall. intros y Hy. apply list_elem_of_filter in Hy as [_ Hy].
  by eapply Forall_forall in Hx.
Qed.

Lemma children_of_sorted comments key :
  Sorted created_le comments → StronglySorted created_le (children_of comments key).
Proof.
  intros Hs. apply StronglySorted_filter_rel, Sorted_StronglySorted; [|done].
  intros a b c. unfold created_le. lia.
Qed.

Lemma bucket_present comments c :
  c ∈ comments →
  ∃ l, build_comment_tree comments !! parent_id c = Some l ∧ c ∈ l.
Proof.
  intros Hc.
  assert (c ∈ children_of comments (parent_id c)) as Hin by by apply bucket_elem.
  rewrite <- build_comment_tree_bucket in Hin.
  destruct (build_comment_tree comments !! parent_id c) as [l|]; simpl in Hin.
  - by exists l.
  - by apply not_elem_of_nil in Hin.
Qed.

(** C3: for an input sorted by creation time, every bucket of the grouping
    and the replies of every node of the forest are the subsequence of
    the input restricted to that parent, hence in creation order; the
    roots are the subsequence of the comments without parent. *)
Theorem C3_children_in_creation_order (comments : list Comment) :
  Sorted created_le comments →
  NoDup (comment_id <$> comments) →
  (∀ p l, build_comment_tree comments !! p = Some l →
          l = children_of comments p ∧ StronglySorted created_le l) ∧
  ∃ forest, buildTree comments = Some forest ∧
    node_record <$> forest = children_of comments None ∧
    ∀ nd, nd ∈ forest_nodes forest →
      node_record <$> node_replies nd
        = children_of comments (Some (comment_id (node_record nd))) ∧
      StronglySorted created_le (node_record <$> node_replies nd).
Proof.
  intros Hsorted Hids. split.
  - intros p l Hl. apply build_comment_tree_lookup in Hl as [-> _].
    split; [done|]. by apply children_of_sorted.
  - destruct (buildTree_returns comments Hids) as [forest Hf].
    exists forest. split; [done|]. split.
    + by apply materialize_roots in Hf.
    + intros nd Hnd.
      rewrite (materialize_replies _ _ _ _ _ Hf Hnd).
      split; [done|]. by apply children_of_sorted.
Qed.

Lemma C3_children_in_creation_order_witness :
  (∀ p l, build_comment_tree comments_A !! p = Some l →
          l = children_of comments_A p ∧ StronglySorted created_le l) ∧
  ∃ forest, buildTree comments_A = Some forest ∧
    node_record <$> forest = children_of comments_A None ∧
    ∀ nd, nd ∈ forest_nodes forest →
      node_record <$> node_replies nd
        = children_of comments_A (Some (comment_id (node_record nd))) ∧
      StronglySorted created_le (node_record <$> node_replies nd).
Proof.
  apply (C3_children_in_creation_order comments_A).
  - repeat constructor; unfold created_le; simpl; lia.
  - simpl. repeat (constructor; [rewrite ?elem_of_cons, elem_of_nil; lia|]).
    constructor.
Defined.

(** C2: a comment whose parent id names no comment of the input is left
    out of the forest, and the forest is still produced. *)
Theorem C2_dangling_parent_excluded (comments : list Comment) (c : Comment) (p : Z) :
  NoDup (comment_id <$> comments) →
  c ∈ comments →
  parent_id c = Some p →
  (∀ d, d ∈ comments → comment_id d ≠ p) →
  ∃ forest, buildTree comments = Some forest ∧ c ∉ flatten forest.
Proof.
  intros Hids Hc Hp Hmissing.
  destruct (buildTree_returns comments Hids) as [forest Hf].
  exists forest. split; [done|]. intros Hin.
  apply (materialize_up _ _ _ _ _ Hf) in Hin.
  destruct Hin as [c Hb|c d Hb Hd]; apply bucket_elem in Hb as [Hpar _].
  - congruence.
  - apply up_elem in Hd. apply (Hmissing d Hd). congruence.
Qed.

Lemma C2_dangling_parent_excluded_witness :
  ∃ forest, buildTree [mkc 5 (Some 99) 5] = Some forest ∧
            mkc 5 (Some 99) 5 ∉ flatten forest.
Proof.
  apply (C2_dangling_parent_excluded [mkc 5 (Some 99) 5] (mkc 5 (Some 99) 5) 99).
  - simpl. repeat (constructor; [rewrite ?elem_of_cons, elem_of_nil; lia|]).
    constructor.
  - left.
  - reflexivity.
  - intros d Hd. apply list_elem_of_singleton in Hd as ->. simpl. lia.
Defined.

(** Scenario B: the dangling comment alone gives the empty forest; the
    grouping holds it under the missing parent's key. *)
Example scenario_B :
  buildTree [mkc 5 (Some 99) 5] = Some [] ∧
  build_comment_tree [mkc 5 (Some 99) 5] !! Some 99 = Some [mkc 5 (Some 99) 5] ∧
  build_comment_tree [mkc 5 (Some 99) 5] !! None = None.
Proof. vm_compute. auto. Qed.

(** ** The self-parent fallback *)




Lemma root_fallback_other c :
  parent_id c ≠ Some (comment_id c) → root_fallback c = c.
Proof. intros H. unfold root_fallback. by rewrite decide_False. Qed.

(** On inputs without a comment that is its own parent the detection
    changes nothing. *)
Lemma buildTree_fallback_agrees (comments : list Comment) :
  (∀ d, d ∈ comments → parent_id d ≠ Some (comment_id d)) →
  buildTree_fallback comments = buildTree comments.
Proof.
  intros Hno. unfold buildTree_fallback. f_equal.
  induction comments as [|c comments IH]; [done|].
  rewrite fmap_cons, root_fallback_other by (apply Hno; left).
  f_equal. apply IH. intros d Hd. apply Hno. by right.
Qed.



(** The lone comment that is its own parent, and scenario A, on which
    the detection changes nothing. *)
Example self_parent_alone :
  buildTree_fallback [mkc 7 (Some 7) 7] = Some [Node (mkc 7 None 7) []] ∧
  buildTree_fallback comments_A = buildTree comments_A ∧
  buildTree_fallback comments_self
  = Some [Node (mkc 1 None 1) [];
          Node (mkc 7 None 2) [Node (mkc 8 (Some 7) 3) []]].
Proof. vm_compute. auto. Qed.

(** ** The karma mapping *)

Lemma dict_get_set u v d x dflt :
  dict_get (dict_set u v d) x dflt = if decide (u = x) then v else dict_get d x dflt.
Proof.
  induction d as [|[a k] d IH]; simpl.
  - by destruct (decide (u = x)).
  - destruct (decide (a = u)) as [->|Ha]; simpl.
    + by destruct (decide (u = x)).
    + rewrite IH. destruct (decide (a = x)) as [->|]; [|done].
      by destruct (decide (u = x)); [congruence|].
Qed.

Lemma total_karma_app r1 r2 : total_karma (r1 ++ r2) = total_karma r1 + total_karma r2.
Proof. induction r1 as [|e r1 IH]; simpl; [done|]. rewrite IH. lia. Qed.

Lemma total_karma_dict_set u k d :
  total_karma (dict_set u (dict_get d u 0 + k) d) = total_karma d + k.
Proof.
  induction d as [|[a v] d IH]; simpl; [lia|].
  destruct (decide (a = u)); simpl; [lia|]. rewrite IH. lia.
Qed.

Lemma karma_of_rows_dict_set x u k d :
  karma_of_rows x (dict_set u (dict_get d u 0 + k) d)
  = karma_of_rows x d + (if decide (u = x) then k else 0).
Proof.
  unfold karma_of_rows. induction d as [|[a v] d IH]; simpl.
  - rewrite filter_cons. simpl. destruct (decide (u = x)); simpl; lia.
  - destruct (decide (a = u)) as [->|Ha]; rewrite !filter_cons; simpl.
    + destruct (decide (u = x)); simpl; lia.
    + destruct (decide (a = x)) as [->|]; simpl; rewrite IH; [|done]. lia.
Qed.

Lemma combine_karma_total d rows :
  total_karma (combine_karma d rows) = total_karma d + total_karma rows.
Proof.
  unfold combine_karma. revert d. induction rows as [|e rows IH]; intros d; simpl; [lia|].
  rewrite IH, total_karma_dict_set. lia.
Qed.

Lemma combine_karma_get d rows x :
  dict_get (combine_karma d rows) x 0 = dict_get d x 0 + karma_of_rows x rows.
Proof.
  unfold combine_karma, karma_of_rows.
  revert d. induction rows as [|e rows IH]; intros d; simpl; [lia|].
  rewrite IH, dict_get_set, filter_cons.
  destruct (decide (e.1 = x)) as [->|]; simpl; lia.
Qed.

Lemma values_count_total keys : total_karma (values_count keys) = Z.of_nat (length keys).
Proof.
  unfold values_count.
  enough (∀ d, total_karma (foldl (fun rows u => dict_set u (dict_get rows u 0 + 1) rows) d keys)
               = total_karma d + Z.of_nat (length keys)) as H by by rewrite H.
  induction keys as [|u keys IH]; intros d; simpl length; [simpl; lia|].
  simpl foldl. rewrite IH, total_karma_dict_set. lia.
Qed.

Lemma values_count_rows x keys :
  karma_of_rows x (values_count keys) = Z.of_nat (length (filter (fun u => u = x) keys)).
Proof.
  unfold values_count.
  enough (∀ d, karma_of_rows x (foldl (fun rows u => dict_set u (dict_get rows u 0 + 1) rows) d keys)
               = karma_of_rows x d + Z.of_nat (length (filter (fun u => u = x) keys))) as H
    by by rewrite H.
  induction keys as [|u keys IH]; intros d; [simpl; lia|].
  simpl foldl. rewrite IH, karma_of_rows_dict_set, filter_cons.
  destruct (decide (u = x)); simpl length; lia.
Qed.

Lemma times5_total rows :
  total_karma ((fun row => (row.1, row.2 * 5)) <$> rows) = 5 * total_karma rows.
Proof. induction rows as [|e rows IH]; [done|]. rewrite fmap_cons. simpl. rewrite IH. lia. Qed.

Lemma times5_rows x rows :
  karma_of_rows x ((fun row => (row.1, row.2 * 5)) <$> rows) = 5 * karma_of_rows x rows.
Proof.
  unfold karma_of_rows. induction rows as [|e rows IH]; [done|].
  rewrite fmap_cons, !filter_cons. simpl.
  destruct (decide (e.1 = x)); simpl; rewrite IH; lia.
Qed.

Lemma length_filter_fmap {A} (f : A → Z) (x : Z) (l : list A) :
  length (filter (fun u => u = x) (f <$> l)) = length (filter (fun a => f a = x) l).
Proof.
  induction l as [|a l IH]; [done|].
  rewrite fmap_cons, !filter_cons. destruct (decide (f a = x)); simpl; by rewrite IH.
Qed.

(** The whole mapping holds 5 per qualifying post-like and 1 per
    qualifying comment-like. *)
Lemma user_karma_total w :
  total_karma (user_karma w)
  = 5 * Z.of_nat (length (qualifying_post_likes w))
    + Z.of_nat (length (qualifying_comment_likes w)).
Proof.
  unfold user_karma, post_karma, comment_karma.
  rewrite !combine_karma_total, times5_total, !values_count_total, !length_fmap.
  simpl. reflexivity.
Qed.

(** The karma of one user: 5 per qualifying like of a post they wrote and
    1 per qualifying like of a comment they wrote. *)
Lemma user_karma_get w u :
  dict_get (user_karma w) u 0
  = 5 * Z.of_nat (length (filter (fun l => post_author (postlike_post l) = u)
                                 (qualifying_post_likes w)))
    + Z.of_nat (length (filter (fun l => comment_author (commentlike_comment l) = u)
                               (qualifying_comment_likes w))).
Proof.
  unfold user_karma, post_karma, comment_karma.
  rewrite !combine_karma_get, times5_rows, !values_count_rows, !length_filter_fmap.
  simpl. reflexivity.
Qed.

(** ** The stable descending sort and the top-5 cut *)

Section SortedReverse.
Context {A : Type} (key : A → Z).

Lemma insert_reverse_Permutation x l : insert_reverse key x l ≡ₚ x :: l.
Proof.
  induction l as [|y l IH]; simpl; [done|].
  destruct (decide (key x < key y)); [|done].
  rewrite IH. apply Permutation_swap.
Qed.

Lemma sorted_reverse_Permutation l : sorted_reverse key l ≡ₚ l.
Proof.
  induction l as [|x l IH]; simpl; [done|].
  by rewrite insert_reverse_Permutation, IH.
Qed.

Lemma insert_reverse_sorted x l :
  StronglySorted (fun a b => key b ≤ key a) l →
  StronglySorted (fun a b => key b ≤ key a) (insert_reverse key x l).
Proof.
  induction 1 as [|y l Hl IH Hy]; simpl; [repeat constructor|].
  destruct (decide (key x < key y)).
  - constructor; [done|].
    rewrite insert_reverse_Permutation. constructor; [lia|done].
  - constructor; [by constructor|].
    constructor; [lia|]. eapply Forall_impl; [exact Hy|]. simpl. intros. lia.
Qed.

Lemma sorted_reverse_sorted l :
  StronglySorted (fun a b => key b ≤ key a) (sorted_reverse key l).
Proof.
  induction l as [|x l IH]; simpl; [constructor|]. by apply insert_reverse_sorted.
Qed.

(** Stability: elements of equal key keep their input order. *)
Lemma insert_reverse_stable k x l :
  filter (fun a => key a = k) (insert_reverse key x l)
  = filter (fun a => key a = k) (x :: l).
Proof.
  induction l as [|y l IH]; simpl; [done|].
  destruct (decide (key x < key y)); [|done].
  rewrite (filter_cons _ y), IH, !filter_cons.
  destruct (decide (key y = k)), (decide (key x = k)); try done. lia.
Qed.

Lemma sorted_reverse_stable k l :
  filter (fun a => key a = k) (sorted_reverse key l) = filter (fun a => key a = k) l.
Proof.
  induction l as [|x l IH]; simpl; [done|].
  by rewrite insert_reverse_stable, !filter_cons, IH.
Qed.

Lemma filter_take_prefix (P : A → Prop) `{∀ a, Decision (P a)} n l :
  filter P (take n l) `prefix_of` filter P l.
Proof.
  rewrite <- (take_drop n l) at 2. rewrite filter_app. by apply prefix_app_r.
Qed.
End SortedReverse.

Lemma total_karma_Permutation r1 r2 : r1 ≡ₚ r2 → total_karma r1 = total_karma r2.
Proof. induction 1; simpl; lia. Qed.

Lemma leaderboard_uncut w :
  (length (user_karma w) ≤ 5)%nat → leaderboard w ≡ₚ user_karma w.
Proof.
  intros Hlen. unfold leaderboard. rewrite take_ge.
  - apply sorted_reverse_Permutation.
  - by rewrite (Permutation_length (sorted_reverse_Permutation snd (user_karma w))).
Qed.

(** ** Events outside the window *)

Lemma extends_with_stale_filter {A} (created : A → Z) cutoff s s' :
  extends_with_stale created cutoff s s' →
  filter (fun e => cutoff ≤ created e) s' = filter (fun e => cutoff ≤ created e) s.
Proof.
  induction 1 as [|e s s' _ IH|e s s' Hstale _ IH]; [done| |].
  - by rewrite !filter_cons, IH.
  - rewrite filter_cons, IH. destruct (decide (cutoff ≤ created e)); [lia|done].
Qed.

Lemma extends_with_stale_refl {A} (created : A → Z) cutoff s :
  extends_with_stale created cutoff s s.
Proof. induction s; by constructor. Qed.

Lemma extends_with_stale_insert {A} (created : A → Z) cutoff s1 e s2 :
  created e < cutoff → extends_with_stale created cutoff (s1 ++ s2) (s1 ++ e :: s2).
Proof.
  intros He. induction s1 as [|x s1 IH]; simpl.
  - apply stale_add; [done|]. apply extends_with_stale_refl.
  - by apply stale_keep.
Qed.

Lemma filter_idemp {A} (P : A → Prop) `{∀ a, Decision (P a)} (l : list A) :
  filter P (filter P l) = filter P l.
Proof.
  induction l as [|x l IH]; [done|].
  rewrite filter_cons. destruct (decide (P x)) as [Hx|]; [|done].
  rewrite filter_cons. by destruct (decide (P x)); [rewrite IH|].
Qed.

(** The mapping depends on the tables only through the events that pass
    the window filter. *)
Lemma user_karma_same_window w w' :
  filter (fun l => last_24h w' ≤ postlike_created_at l) (post_likes w')
    = filter (fun l => last_24h w ≤ postlike_created_at l) (post_likes w) →
  filter (fun l => last_24h w' ≤ commentlike_created_at l) (comment_likes w')
    = filter (fun l => last_24h w ≤ commentlike_created_at l) (comment_likes w) →
  user_karma w' = user_karma w.
Proof.
  intros Hp Hc. unfold user_karma, post_karma, comment_karma.
  fold (last_24h w) (last_24h w'). simpl. by rewrite Hp, Hc.
Qed.

(** ** Claims about the leaderboard *)

Example scenario_C : leaderboard world_C = [(1, 5); (2, 1)].
Proof. vm_compute. reflexivity. Qed.

(** C1, as stated, fails: in [world_tie] users 1 and 2 both hold 5 karma
    and the output lists user 2 before user 1. *)
Lemma C1_tie_not_by_user_id :
  leaderboard world_tie = [(2, 5); (1, 5)] ∧
  ¬ (∀ i j a b, (i < j)%nat →
       leaderboard world_tie !! i = Some a → leaderboard world_tie !! j = Some b →
       a.2 = b.2 → a.1 < b.1).
Proof.
  split; [vm_compute; reflexivity|].
  intros H. specialize (H 0%nat 1%nat (2, 5) (1, 5)).
  assert (2 < 1) by (apply H; [lia| | |]; vm_compute; reflexivity). lia.
Qed.

(** C4: the aggregation counts exactly the events created at or after
    [now - 24h]: a user's karma is 5 per such like of their posts plus 1
    per such like of their comments; an event created exactly at the
    boundary is counted, and an event created before it changes nothing. *)
Theorem C4_half_open_window (w : World) :
  (∀ l, l ∈ qualifying_post_likes w ↔
        l ∈ post_likes w ∧ timezone_now w - timedelta_hours 24 ≤ postlike_created_at l) ∧
  (∀ l, l ∈ qualifying_comment_likes w ↔
        l ∈ comment_likes w ∧ timezone_now w - timedelta_hours 24 ≤ commentlike_created_at l) ∧
  (∀ u, dict_get (user_karma w) u 0
        = 5 * Z.of_nat (length (filter (fun l => post_author (postlike_post l) = u)
                                       (qualifying_post_likes w)))
          + Z.of_nat (length (filter (fun l => comment_author (commentlike_comment l) = u)
                                     (qualifying_comment_likes w)))) ∧
  (∀ l, l ∈ post_likes w →
        postlike_created_at l = timezone_now w - timedelta_hours 24 →
        5 ≤ dict_get (user_karma w) (post_author (postlike_post l)) 0) ∧
  (∀ l, l ∈ comment_likes w →
        commentlike_created_at l = timezone_now w - timedelta_hours 24 →
        1 ≤ dict_get (user_karma w) (comment_author (commentlike_comment l)) 0) ∧
  (∀ t1 l t2, post_likes w = t1 ++ l :: t2 →
        postlike_created_at l < timezone_now w - timedelta_hours 24 →
        user_karma w = user_karma {| clock := clock w; post_likes := t1 ++ t2;
                                     comment_likes := comment_likes w |}) ∧
  (∀ t1 l t2, comment_likes w = t1 ++ l :: t2 →
        commentlike_created_at l < timezone_now w - timedelta_hours 24 →
        user_karma w = user_karma {| clock := clock w; post_likes := post_likes w;
                                     comment_likes := t1 ++ t2 |}).
Proof.
  assert (∀ {A} (P : A → Prop) `{∀ a, Decision (P a)} (l : list A) x,
            x ∈ l → P x → (1 ≤ length (filter P l))%nat) as Hcount.
  { intros A P ? l x Hx HP.
    assert (x ∈ filter P l) as Hin by by apply list_elem_of_filter.
    destruct (filter P l); [by apply not_elem_of_nil in Hin|simpl; lia]. }
  split; [|split; [|split; [|split; [|split; [|split]]]]].
  - intros l. unfold qualifying_post_likes, last_24h. rewrite list_elem_of_filter. tauto.
  - intros l. unfold qualifying_comment_likes, last_24h. rewrite list_elem_of_filter. tauto.
  - apply user_karma_get.
  - intros l Hl Ht. rewrite user_karma_get.
    enough (1 ≤ length (filter (fun l0 => post_author (postlike_post l0)
                                          = post_author (postlike_post l))
                               (qualifying_post_likes w)))%nat by lia.
    apply (Hcount _ _ _ _ l); [|done].
    unfold qualifying_post_likes. apply list_elem_of_filter. split; [|done].
    unfold last_24h. lia.
  - intros l Hl Ht. rewrite user_karma_get.
    enough (1 ≤ length (filter (fun l0 => comment_author (commentlike_comment l0)
                                          = comment_author (commentlike_comment l))
                               (qualifying_comment_likes w)))%nat by lia.
    apply (Hcount _ _ _ _ l); [|done].
    unfold qualifying_comment_likes. apply list_elem_of_filter. split; [|done].
    unfold last_24h. lia.
  - intros t1 l t2 Ht Hl. symmetry. apply user_karma_same_window; [|done].
    simpl. rewrite Ht. symmetry. apply extends_with_stale_filter.
    by apply extends_with_stale_insert.
  - intros t1 l t2 Ht Hl. symmetry. apply user_karma_same_window; [done|].
    simpl. rewrite Ht. symmetry. apply extends_with_stale_filter.
    by apply extends_with_stale_insert.
Qed.

Lemma C4_half_open_window_witness :
  5 ≤ dict_get (user_karma world_boundary) 1 0 ∧
  user_karma world_boundary
  = user_karma {| clock := 100 * hour; post_likes := [mkpl 8 10 1 (76 * hour)];
                  comment_likes := [] |}.
Proof.
  destruct (C4_half_open_window world_boundary) as (_ & _ & _ & Hat & _ & Hbefore & _).
  split.
  - apply (Hat (mkpl 8 10 1 (76 * hour))); [left|vm_compute; reflexivity].
  - apply (Hbefore [mkpl 8 10 1 (76 * hour)] (mkpl 9 30 3 (76 * hour - 1)) []);
      [reflexivity|vm_compute; reflexivity].
Defined.

(** C5, as stated, fails: with six users of one qualifying comment-like
    each, the output holds five rows of karma 1, not a total of 6. *)
Lemma C5_total_cut_by_top5 :
  total_karma (leaderboard world_six) = 5 ∧
  5 * Z.of_nat (length (qualifying_post_likes world_six))
    + Z.of_nat (length (qualifying_comment_likes world_six)) = 6 ∧
  total_karma (leaderboard world_six)
    ≠ 5 * Z.of_nat (length (qualifying_post_likes world_six))
      + Z.of_nat (length (qualifying_comment_likes world_six)).
Proof.
  split; [vm_compute; reflexivity|]. split; [vm_compute; reflexivity|].
  vm_compute. intros H. discriminate H.
Qed.

(** C5 (amended): the karma mapping, before the cut to five rows, holds
    in total 5 per qualifying post-like and 1 per qualifying
    comment-like, credited to the author of the liked post or comment;
    the output has the same total when at most five users hold karma. *)
Theorem C5_total_karma (w : World) :
  total_karma (user_karma w)
    = 5 * Z.of_nat (length (qualifying_post_likes w))
      + Z.of_nat (length (qualifying_comment_likes w)) ∧
  (∀ u, dict_get (user_karma w) u 0
        = 5 * Z.of_nat (length (filter (fun l => post_author (postlike_post l) = u)
                                       (qualifying_post_likes w)))
          + Z.of_nat (length (filter (fun l => comment_author (commentlike_comment l) = u)
                                     (qualifying_comment_likes w)))) ∧
  ((length (user_karma w) ≤ 5)%nat →
   total_karma (leaderboard w)
     = 5 * Z.of_nat (length (qualifying_post_likes w))
       + Z.of_nat (length (qualifying_comment_likes w))).
Proof.
  split; [apply user_karma_total|]. split; [apply user_karma_get|].
  intros Hlen. rewrite (total_karma_Permutation _ _ (leaderboard_uncut w Hlen)).
  apply user_karma_total.
Qed.

Lemma C5_total_karma_witness :
  total_karma (leaderboard world_C)
  = 5 * Z.of_nat (length (qualifying_post_likes world_C))
    + Z.of_nat (length (qualifying_comment_likes world_C)).
Proof.
  destruct (C5_total_karma world_C) as (_ & _ & Hout).
  apply Hout. vm_compute. lia.
Defined.

(** C6: events created before the start of the window, added anywhere to
    the two tables, do not change the output; in particular the output
    on the full tables is the output on the tables already restricted to
    the window. *)
Theorem C6_stale_events_ignored (w w' : World) :
  clock w' = clock w →
  extends_with_stale postlike_created_at (last_24h w) (post_likes w) (post_likes w') →
  extends_with_stale commentlike_created_at (last_24h w) (comment_likes w) (comment_likes w') →
  leaderboard w' = leaderboard w ∧
  leaderboard w' = leaderboard {| clock := clock w';
                                  post_likes := qualifying_post_likes w';
                                  comment_likes := qualifying_comment_likes w' |}.
Proof.
  intros Hclock Hp Hc.
  assert (last_24h w' = last_24h w) as Hcut
    by (unfold last_24h, timezone_now; by rewrite Hclock).
  unfold leaderboard. split; f_equal; f_equal.
  - apply user_karma_same_window; rewrite Hcut; by apply extends_with_stale_filter.
  - symmetry. apply user_karma_same_window; simpl;
      unfold qualifying_post_likes, qualifying_comment_likes;
      change (last_24h {| clock := clock w'; post_likes := _; comment_likes := _ |})
        with (last_24h w'); apply filter_idemp.
Qed.

Lemma C6_stale_events_ignored_witness :
  leaderboard world_C = leaderboard world_C_recent ∧
  leaderboard world_C
  = leaderboard {| clock := clock world_C;
                   post_likes := qualifying_post_likes world_C;
                   comment_likes := qualifying_comment_likes world_C |}.
Proof.
  apply (C6_stale_events_ignored world_C_recent world_C).
  - reflexivity.
  - apply stale_keep, stale_add; [vm_compute; reflexivity|apply stale_nil].
  - apply stale_keep, stale_nil.
Defined.

(** C7, as stated, fails: [leaderboard] reads the clock, and the same two
    tables give different outputs at different clock readings. *)
Lemma C7_output_depends_on_clock :
  ¬ (∀ w1 w2, post_likes w1 = post_likes w2 → comment_likes w1 = comment_likes w2 →
              leaderboard w1 = leaderboard w2).
Proof.
  intros H.
  specialize (H world_C {| clock := 200 * hour; post_likes := post_likes world_C;
                           comment_likes := comment_likes world_C |} eq_refl eq_refl).
  vm_compute in H. discriminate H.
Qed.

(** C7 (amended): [leaderboard] takes no time parameter; it reads the
    clock once, and its output is determined by the two like tables and
    that reading, which matters only through the events it lets pass the
    window test.  Two runs on the same tables at the same clock reading
    give the same output. *)
Theorem C7_output_determined_by_tables_and_clock (w1 w2 : World) :
  post_likes w1 = post_likes w2 →
  comment_likes w1 = comment_likes w2 →
  (clock w1 = clock w2 → leaderboard w1 = leaderboard w2) ∧
  ((∀ l, l ∈ post_likes w1 →
      (timezone_now w1 - timedelta_hours 24 ≤ postlike_created_at l
       ↔ timezone_now w2 - timedelta_hours 24 ≤ postlike_created_at l)) →
   (∀ l, l ∈ comment_likes w1 →
      (timezone_now w1 - timedelta_hours 24 ≤ commentlike_created_at l
       ↔ timezone_now w2 - timedelta_hours 24 ≤ commentlike_created_at l)) →
   leaderboard w1 = leaderboard w2).
Proof.
  intros Hp Hc.
  assert (∀ {A} (P Q : A → Prop) `{∀ a, Decision (P a)} `{∀ a, Decision (Q a)} (l : list A),
            (∀ x, x ∈ l → P x ↔ Q x) → filter P l = filter Q l) as Hext.
  { intros A P Q ? ? l. induction l as [|x l IH]; intros HPQ; [done|].
    rewrite !filter_cons.
    assert (filter P l = filter Q l) as -> by (apply IH; intros y Hy; apply HPQ; by right).
    destruct (decide (P x)) as [HP|HP], (decide (Q x)) as [HQ|HQ]; try done;
      exfalso; [apply HQ|apply HP]; by apply (HPQ x (list_elem_of_here x l)). }
  assert ((∀ l, l ∈ post_likes w1 →
      (timezone_now w1 - timedelta_hours 24 ≤ postlike_created_at l
       ↔ timezone_now w2 - timedelta_hours 24 ≤ postlike_created_at l)) →
   (∀ l, l ∈ comment_likes w1 →
      (timezone_now w1 - timedelta_hours 24 ≤ commentlike_created_at l
       ↔ timezone_now w2 - timedelta_hours 24 ≤ commentlike_created_at l)) →
   leaderboard w1 = leaderboard w2) as Hwin.
  { intros Hwp Hwc. unfold leaderboard. f_equal. f_equal.
    apply user_karma_same_window; unfold last_24h.
    - rewrite <- Hp. by apply Hext.
    - rewrite <- Hc. by apply Hext. }
  split; [|done].
  intros Hclock. apply Hwin; intros l _; unfold timezone_now; by rewrite Hclock.
Qed.

Lemma C7_output_determined_by_tables_and_clock_witness :
  leaderboard world_C
  = leaderboard {| clock := 100 * hour + 1; post_likes := post_likes world_C;
                   comment_likes := comment_likes world_C |}.
Proof.
  destruct (C7_output_determined_by_tables_and_clock world_C
              {| clock := 100 * hour + 1; post_likes := post_likes world_C;
                 comment_likes := comment_likes world_C |} eq_refl eq_refl) as [_ Hwin].
  apply Hwin.
  - intros l Hl. simpl in Hl. rewrite !elem_of_cons, elem_of_nil in Hl.
    destruct Hl as [->|[->|[]]]; vm_compute; split; intros H; try exact H; try discriminate H;
      intros H'; discriminate H'.
  - intros l Hl. simpl in Hl. rewrite !elem_of_cons, elem_of_nil in Hl.
    destruct Hl as [->|[]]; vm_compute; split; intros H; try exact H; try discriminate H;
      intros H'; discriminate H'.
Defined.

(** ** The like transition *)

Lemma like_first (user : Z) (post : Post) (w : World) :
  has_like user post w = false →
  like user post w
  = ({| clock := clock w;
        post_likes := post_likes w ++
          [{| postlike_user := user; postlike_post := post;
              postlike_created_at := clock w |}];
        comment_likes := comment_likes w |},
     {| status := HTTP_200_OK; detail := "Post liked successfully" |}).
Proof. intros H. unfold like, get_or_create, create. by rewrite H. Qed.

Lemma like_sets_liked (user : Z) (post : Post) (w : World) :
  has_like user post (like user post w).1 = true.
Proof.
  destruct (has_like user post w) eqn:E.
  - unfold like, get_or_create. by rewrite E.
  - rewrite like_first by done. unfold has_like. simpl.
    rewrite existsb_app. simpl. unfold same_like at 2. simpl.
    rewrite !bool_decide_eq_true_2 by done. by rewrite orb_true_r.
Qed.

(** C9: liking a pair that is already Liked leaves the world as it is
    and answers 400 "Already liked this post", which differs from the
    answer to a first like (200 "Post liked successfully"); the
    leaderboard is unchanged. *)
Theorem C9_duplicate_like_conflict (user : Z) (post : Post) (w : World) :
  has_like user post w = true →
  like user post w
    = (w, {| status := HTTP_400_BAD_REQUEST; detail := "Already liked this post" |}) ∧
  post_likes (like user post w).1 = post_likes w ∧
  leaderboard (like user post w).1 = leaderboard w ∧
  (like user post w).2 ≠ {| status := HTTP_200_OK; detail := "Post liked successfully" |} ∧
  (∀ w0, has_like user post w0 = false →
         (like user post w0).2
           = {| status := HTTP_200_OK; detail := "Post liked successfully" |} ∧
         (like user post w0).2 ≠ (like user post w).2 ∧
         has_like user post (like user post w0).1 = true).
Proof.
  intros Hliked.
  assert (like user post w
          = (w, {| status := HTTP_400_BAD_REQUEST; detail := "Already liked this post" |}))
    as Hlike by (unfold like, get_or_create; by rewrite Hliked).
  rewrite Hlike. simpl. repeat split; try done.
  - by rewrite like_first.
  - by rewrite like_first.
  - apply like_sets_liked.
Qed.

Lemma C9_duplicate_like_conflict_witness :
  like 7 post3 world_liked
    = (world_liked,
       {| status := HTTP_400_BAD_REQUEST; detail := "Already liked this post" |}).
Proof.
  apply (C9_duplicate_like_conflict 7 post3 world_liked). reflexivity.
Defined.

(** ** The frontend handlers *)

Lemma append_String (c : Ascii.ascii) (a b : string) :
  String c a +:+ b = String c (a +:+ b).
Proof. reflexivity. Qed.

Lemma append_empty (b : string) : "" +:+ b = b.
Proof. reflexivity. Qed.

Lemma prefix_spec (t s : string) :
  String.prefix t s = true ↔ ∃ b, s = t +:+ b.
Proof.
  revert s. induction t as [|c t IH]; intros [|d s]; simpl.
  - split; [intros _; by exists ""|done].
  - split; [intros _; by exists (String d s)|done].
  - split; [done|intros [b Hb]; discriminate].
  - destruct (Ascii.ascii_dec c d) as [->|Hne].
    + rewrite IH. split; intros [b Hb]; exists b; rewrite append_String in *; congruence.
    + split; [done|]. intros [b Hb]. rewrite append_String in Hb. congruence.
Qed.

Lemma includes_unfold (s t : string) :
  includes s t
  = if String.prefix t s then true
    else match s with EmptyString => false | String _ s' => includes s' t end.
Proof. by destruct s. Qed.

(** [includes] is the substring test. *)
Lemma includes_spec (s t : string) :
  includes s t = true ↔ ∃ a b, s = a +:+ t +:+ b.
Proof.
  split.
  - induction s as [|c s IH]; rewrite includes_unfold;
      destruct (String.prefix t _) eqn:E.
    + intros _. apply prefix_spec in E as [b Hb]. by exists "", b.
    + done.
    + intros _. apply prefix_spec in E as [b Hb]. by exists "", b.
    + intros H. destruct (IH H) as (a & b & ->). by exists (String c a), b.
  - intros (a & b & ->). induction a as [|c a IH]; rewrite includes_unfold.
    + rewrite append_empty.
      assert (String.prefix t (t +:+ b) = true) as -> by (apply prefix_spec; by exists b).
      done.
    + rewrite append_String. destruct (String.prefix t _); [done|]. exact IH.
Qed.

Lemma catch_like_error_spec (message : string) (st : UiState) :
  ((∃ a b, message = a +:+ "Already" +:+ b) → catch_like_error message st = st) ∧
  ((¬ ∃ a b, message = a +:+ "Already" +:+ b) →
   catch_like_error message st = setError message st).
Proof.
  unfold catch_like_error. split; intros H.
  - apply includes_spec in H. by rewrite H.
  - destruct (includes message "Already") eqn:E; [|done].
    exfalso. apply H. by apply includes_spec.
Qed.

(** C10, as stated, fails in its last part: a swallowed conflict is not
    indistinguishable from a success.  For the same click the handler
    leaves the state as it is when the server answers with the conflict,
    and starts a reload when the server accepts the like. *)
Lemma C10_conflict_differs_from_success :
  App_handleLikePost conflict_server 3 false st0 = {| error := None; reloads := 0 |} ∧
  App_handleLikePost liked_server 3 false st0 = {| error := None; reloads := 1 |} ∧
  App_handleLikePost conflict_server 3 false st0
    ≠ App_handleLikePost liked_server 3 false st0 ∧
  PostDetail_handleLikePost conflict_server 3 false st0
    ≠ PostDetail_handleLikePost liked_server 3 false st0.
Proof.
  split; [vm_compute; reflexivity|]. split; [vm_compute; reflexivity|].
  split; vm_compute; intros H; discriminate H.
Qed.

(** C10 (amended): in the three like handlers an API error whose message
    contains "Already" is swallowed: the state stays as it is, no error
    is set and no reload is started.  Every other API error message is
    stored in the error state, and no reload is started.  A successful
    call leaves the error state as it was and starts one reload: a
    swallowed conflict shows no error, like a success, but the data is
    not reloaded. *)
Theorem C10_already_errors_swallowed (server : Endpoint → HttpResponse)
    (id : Z) (hasLiked : bool) (st : UiState) :
  (∀ message,
     (if hasLiked then unlikePost server id else likePost server id) = inl message →
     ((∃ a b, message = a +:+ "Already" +:+ b) →
      App_handleLikePost server id hasLiked st = st ∧
      PostDetail_handleLikePost server id hasLiked st = st) ∧
     ((¬ ∃ a b, message = a +:+ "Already" +:+ b) →
      error (App_handleLikePost server id hasLiked st) = Some message ∧
      reloads (App_handleLikePost server id hasLiked st) = reloads st ∧
      error (PostDetail_handleLikePost server id hasLiked st) = Some message ∧
      reloads (PostDetail_handleLikePost server id hasLiked st) = reloads st)) ∧
  (∀ message,
     (if hasLiked then unlikeComment server id else likeComment server id) = inl message →
     ((∃ a b, message = a +:+ "Already" +:+ b) →
      PostDetail_handleLikeComment server id hasLiked st = st) ∧
     ((¬ ∃ a b, message = a +:+ "Already" +:+ b) →
      error (PostDetail_handleLikeComment server id hasLiked st) = Some message ∧
      reloads (PostDetail_handleLikeComment server id hasLiked st) = reloads st)) ∧
  (∀ data,
     (if hasLiked then unlikePost server id else likePost server id) = inr data →
     error (App_handleLikePost server id hasLiked st) = error st ∧
     reloads (App_handleLikePost server id hasLiked st) = S (reloads st) ∧
     error (PostDetail_handleLikePost server id hasLiked st) = error st ∧
     reloads (PostDetail_handleLikePost server id hasLiked st) = S (reloads st)) ∧
  (∀ data,
     (if hasLiked then unlikeComment server id else likeComment server id) = inr data →
     error (PostDetail_handleLikeComment server id hasLiked st) = error st ∧
     reloads (PostDetail_handleLikeComment server id hasLiked st) = S (reloads st)).
Proof.
  unfold App_handleLikePost, PostDetail_handleLikePost, PostDetail_handleLikeComment.
  split; [|split; [|split]].
  - intros message ->. destruct (catch_like_error_spec message st) as [Hin Hout].
    split; intros H; [split; auto|]. rewrite (Hout H). done.
  - intros message ->. destruct (catch_like_error_spec message st) as [Hin Hout].
    split; intros H; [auto|]. rewrite (Hout H). done.
  - intros data ->. done.
  - intros data ->. done.
Qed.

Lemma C10_already_errors_swallowed_witness :
  App_handleLikePost conflict_server 3 false st0 = st0 ∧
  PostDetail_handleLikePost conflict_server 3 false st0 = st0.
Proof.
  destruct (C10_already_errors_swallowed conflict_server 3 false st0) as (Hpost & _).
  destruct (Hpost "Already liked this post" eq_refl) as [Hin _].
  apply Hin. by exists "", " liked this post".
Defined.

(** ** More about the karma mapping and the top-5 cut *)

Lemma dict_set_keys u v d :
  (dict_set u v d).*1 = if decide (u ∈ d.*1) then d.*1 else d.*1 ++ [u].
Proof.
  induction d as [|[a k] d IH].
  - destruct (decide (u ∈ ([] : list (Z * Z)).*1)) as [H|_]; [|done].
    by apply not_elem_of_nil in H.
  - cbn [dict_set]. destruct (decide (a = u)) as [->|Ha]; rewrite !fmap_cons; cbn [fst].
    + destruct (decide (u ∈ u :: d.*1)) as [_|H]; [done|]. exfalso. apply H. left.
    + rewrite IH.
      destruct (decide (u ∈ d.*1)) as [Hin|Hin], (decide (u ∈ a :: d.*1)) as [Hin'|Hin'];
        try done.
      * exfalso. apply Hin'. by right.
      * exfalso. apply elem_of_cons in Hin' as [->|?]; done.
Qed.

Lemma dict_set_NoDup u v d : NoDup d.*1 → NoDup (dict_set u v d).*1.
Proof.
  intros Hd. rewrite dict_set_keys. destruct (decide (u ∈ d.*1)); [done|].
  apply NoDup_app. split; [done|]. split; [|apply NoDup_singleton].
  intros x Hx Hx'. by apply list_elem_of_singleton in Hx' as ->.
Qed.

Lemma dict_set_elem x u v d : x ∈ (dict_set u v d).*1 ↔ x = u ∨ x ∈ d.*1.
Proof.
  rewrite dict_set_keys. destruct (decide (u ∈ d.*1)).
  - split; [by right|]. by intros [->|?].
  - rewrite elem_of_app, list_elem_of_singleton. tauto.
Qed.

Lemma combine_karma_NoDup d rows : NoDup d.*1 → NoDup (combine_karma d rows).*1.
Proof.
  unfold combine_karma. revert d. induction rows as [|e rows IH]; intros d Hd; [done|].
  simpl. by apply IH, dict_set_NoDup.
Qed.

Lemma combine_karma_elem x d rows :
  x ∈ (combine_karma d rows).*1 ↔ x ∈ d.*1 ∨ x ∈ rows.*1.
Proof.
  unfold combine_karma. revert d. induction rows as [|e rows IH]; intros d; simpl.
  - rewrite elem_of_nil. tauto.
  - rewrite IH, dict_set_elem, elem_of_cons. tauto.
Qed.

Lemma values_count_NoDup keys : NoDup (values_count keys).*1.
Proof.
  unfold values_count.
  enough (∀ d, NoDup d.*1 →
               NoDup (foldl (fun rows u => dict_set u (dict_get rows u 0 + 1) rows) d keys).*1)
    as H by (apply H; constructor).
  induction keys as [|u keys IH]; intros d Hd; [done|]. simpl. by apply IH, dict_set_NoDup.
Qed.

Lemma values_count_elem x keys : x ∈ (values_count keys).*1 ↔ x ∈ keys.
Proof.
  unfold values_count.
  enough (∀ d, x ∈ (foldl (fun rows u => dict_set u (dict_get rows u 0 + 1) rows) d keys).*1
               ↔ x ∈ d.*1 ∨ x ∈ keys) as H by (rewrite H, elem_of_nil; tauto).
  induction keys as [|u keys IH]; intros d; simpl.
  - rewrite elem_of_nil. tauto.
  - rewrite IH, dict_set_elem, elem_of_cons. tauto.
Qed.

Lemma times5_keys rows : ((fun row : Z * Z => (row.1, row.2 * 5)) <$> rows).*1 = rows.*1.
Proof. induction rows as [|e rows IH]; [done|]. rewrite !fmap_cons. simpl. by f_equal. Qed.

(** No user id occurs twice in the mapping. *)
Lemma user_karma_NoDup w : NoDup (user_karma w).*1.
Proof.
  unfold user_karma. apply combine_karma_NoDup, combine_karma_NoDup. constructor.
Qed.

(** The users of the mapping are the authors credited by a qualifying like. *)
Lemma user_karma_elem w u :
  u ∈ (user_karma w).*1 ↔
  u ∈ (fun l => post_author (postlike_post l)) <$> qualifying_post_likes w ∨
  u ∈ (fun l => comment_author (commentlike_comment l)) <$> qualifying_comment_likes w.
Proof.
  unfold user_karma, post_karma, comment_karma.
  rewrite !combine_karma_elem, times5_keys, !values_count_elem, elem_of_nil.
  unfold qualifying_post_likes, qualifying_comment_likes, last_24h. tauto.
Qed.

Lemma dict_get_elem d u k dflt : NoDup d.*1 → (u, k) ∈ d → dict_get d u dflt = k.
Proof.
  induction d as [|[a v] d IH]; intros Hd Hin; [by apply not_elem_of_nil in Hin|].
  rewrite fmap_cons in Hd. apply NoDup_cons in Hd as [Ha Hd]. simpl.
  apply elem_of_cons in Hin as [[= -> ->]|Hin].
  - by destruct (decide (a = a)).
  - destruct (decide (a = u)) as [->|_]; [|by apply IH].
    exfalso. apply Ha. apply list_elem_of_fmap. by exists (u, k).
Qed.

Lemma length_filter_pos {A} (P : A → Prop) `{∀ a, Decision (P a)} (l : list A) x :
  x ∈ l → P x → (1 ≤ length (filter P l))%nat.
Proof.
  intros Hx HP. assert (x ∈ filter P l) as Hin by by apply list_elem_of_filter.
  destruct (filter P l); [by apply not_elem_of_nil in Hin|simpl; lia].
Qed.

Lemma leaderboard_subseteq w row : row ∈ leaderboard w → row ∈ user_karma w.
Proof.
  unfold leaderboard. intros Hin.
  rewrite <- (sorted_reverse_Permutation snd (user_karma w)).
  rewrite <- (take_drop 5 (sorted_reverse snd (user_karma w))).
  apply elem_of_app. by left.
Qed.

Lemma user_karma_row w u k :
  (u, k) ∈ user_karma w →
  k = 5 * Z.of_nat (length (filter (fun l => post_author (postlike_post l) = u)
                                   (qualifying_post_likes w)))
      + Z.of_nat (length (filter (fun l => comment_author (commentlike_comment l) = u)
                                 (qualifying_comment_likes w))) ∧
  1 ≤ k.
Proof.
  intros Hin.
  assert (dict_get (user_karma w) u 0 = k) as Hk
    by (apply dict_get_elem; [apply user_karma_NoDup|done]).
  rewrite user_karma_get in Hk. split; [done|].
  assert (u ∈ (user_karma w).*1) as Hu
    by (apply list_elem_of_fmap; by exists (u, k)).
  apply user_karma_elem in Hu as [Hu|Hu];
    apply list_elem_of_fmap in Hu as (l & Hl & Hin').
  - pose proof (length_filter_pos (fun l => post_author (postlike_post l) = u)
                  (qualifying_post_likes w) l Hin' (eq_sym Hl)). lia.
  - pose proof (length_filter_pos (fun l => comment_author (commentlike_comment l) = u)
                  (qualifying_comment_likes w) l Hin' (eq_sym Hl)). lia.
Qed.

(** X1: every row of the leaderboard shows the karma its user earned in
    the window, 5 per qualifying like of their posts plus 1 per
    qualifying like of their comments, and that karma is at least 1: a
    user without a qualifying like is never listed. *)
Theorem X1_leaderboard_rows_hold_earned_karma (w : World) (u k : Z) :
  (u, k) ∈ leaderboard w →
  k = 5 * Z.of_nat (length (filter (fun l => post_author (postlike_post l) = u)
                                   (qualifying_post_likes w)))
      + Z.of_nat (length (filter (fun l => comment_author (commentlike_comment l) = u)
                                 (qualifying_comment_likes w))) ∧
  1 ≤ k.
Proof. intros Hin. by apply user_karma_row, leaderboard_subseteq. Qed.

Lemma X1_leaderboard_rows_hold_earned_karma_witness :
  5 = 5 * Z.of_nat (length (filter (fun l => post_author (postlike_post l) = 1)
                                   (qualifying_post_likes world_C)))
      + Z.of_nat (length (filter (fun l => comment_author (commentlike_comment l) = 1)
                                 (qualifying_comment_likes world_C))) ∧
  1 ≤ 5.
Proof.
  apply (X1_leaderboard_rows_hold_earned_karma world_C 1 5).
  vm_compute. left.
Defined.

(** X2: the leaderboard has at most five rows, as many as there are users
    in the karma mapping when these are fewer, and no user occurs in two
    rows. *)
Theorem X2_leaderboard_size_and_distinct_users (w : World) :
  length (leaderboard w) = Nat.min 5 (length (user_karma w)) ∧
  (length (leaderboard w) ≤ 5)%nat ∧
  NoDup (leaderboard w).*1.
Proof.
  assert (length (leaderboard w) = Nat.min 5 (length (user_karma w))) as Hlen.
  { unfold leaderboard. rewrite length_take.
    by rewrite (Permutation_length (sorted_reverse_Permutation snd (user_karma w))). }
  split; [done|]. split; [lia|].
  unfold leaderboard. rewrite fmap_take.
  apply sublist_NoDup with ((sorted_reverse snd (user_karma w)).*1); [|apply sublist_take].
  rewrite (sorted_reverse_Permutation snd (user_karma w)). apply user_karma_NoDup.
Qed.

(** X3: the users listed are users credited by a qualifying like (as
    author of a liked post or of a liked comment), and when at most five
    users were credited, every one of them is listed. *)
Theorem X3_leaderboard_lists_credited_users (w : World) (u : Z) :
  (u ∈ (leaderboard w).*1 →
   u ∈ (fun l => post_author (postlike_post l)) <$> qualifying_post_likes w ∨
   u ∈ (fun l => comment_author (commentlike_comment l)) <$> qualifying_comment_likes w) ∧
  ((length (user_karma w) ≤ 5)%nat →
   u ∈ (fun l => post_author (postlike_post l)) <$> qualifying_post_likes w ∨
   u ∈ (fun l => comment_author (commentlike_comment l)) <$> qualifying_comment_likes w →
   u ∈ (leaderboard w).*1).
Proof.
  split.
  - intros Hu. apply user_karma_elem.
    apply list_elem_of_fmap in Hu as (row & -> & Hrow).
    apply list_elem_of_fmap_2. by apply leaderboard_subseteq.
  - intros Hlen Hu. apply user_karma_elem in Hu.
    by rewrite (leaderboard_uncut w Hlen).
Qed.

Lemma X3_leaderboard_lists_credited_users_witness :
  2 ∈ (leaderboard world_C).*1.
Proof.
  destruct (X3_leaderboard_lists_credited_users world_C 2) as [_ H].
  apply H; [vm_compute; lia|]. right. vm_compute. left.
Defined.

(** X4: the cut keeps the best: a user of the karma mapping who is not
    listed has at most the karma of every listed user. *)
Theorem X4_unlisted_users_have_no_more_karma (w : World) (row row' : Z * Z) :
  row ∈ user_karma w → row ∉ leaderboard w → row' ∈ leaderboard w →
  row.2 ≤ row'.2.
Proof.
  unfold leaderboard. intros Hrow Hout Hin.
  pose proof (sorted_reverse_sorted snd (user_karma w)) as Hs.
  rewrite <- (sorted_reverse_Permutation snd (user_karma w)) in Hrow.
  rewrite <- (take_drop 5 (sorted_reverse snd (user_karma w))) in Hs, Hrow.
  apply elem_of_app in Hrow as [Hrow|Hrow]; [done|].
  apply (StronglySorted_app_1_elem_of _ _ _ row' row Hs Hin Hrow).
Qed.

Lemma X4_unlisted_users_have_no_more_karma_witness :
  (6, 1).2 ≤ (1, 1).2.
Proof.
  apply (X4_unlisted_users_have_no_more_karma world_six (6, 1) (1, 1)).
  - vm_compute. repeat first [left | right].
  - assert (leaderboard world_six = [(1, 1); (2, 1); (3, 1); (4, 1); (5, 1)]) as ->
      by (vm_compute; reflexivity).
    intros H. repeat (apply elem_of_cons in H as [H|H]; [discriminate H|]).
    by apply elem_of_nil in H.
  - vm_compute. left.
Defined.

Lemma timedelta_hours_24_pos : 0 < timedelta_hours 24.
Proof. unfold timedelta_hours. lia. Qed.

(** Inserting a like row stamped with the current time adds 5 to the
    karma of the post's author and nothing to anyone else. *)
Lemma create_unconstrained_karma (user : Z) (post : Post) (w : World) (a : Z) :
  dict_get (user_karma (create_unconstrained user post w)) a 0
  = dict_get (user_karma w) a 0 + (if decide (post_author post = a) then 5 else 0).
Proof.
  rewrite !user_karma_get.
  unfold qualifying_post_likes, qualifying_comment_likes, last_24h, timezone_now,
    create_unconstrained.
  cbn [clock post_likes comment_likes].
  rewrite !filter_app, !length_app.
  rewrite (filter_cons (fun l => _ ≤ postlike_created_at l)). cbn [postlike_created_at].
  pose proof timedelta_hours_24_pos.
  destruct (decide (clock w - timedelta_hours 24 ≤ clock w)); [|lia].
  rewrite filter_nil, filter_cons, filter_nil. cbn [postlike_post].
  destruct (decide (post_author post = a)); simpl length; lia.
Qed.

(** X5: a like changes the karma mapping by exactly its weight: a first
    like of a post adds 5 to the karma of the post's author and nothing
    to anyone else, a repeated like adds nothing. *)
Theorem X5_like_adds_five_to_the_author (user : Z) (post : Post) (w : World) (a : Z) :
  dict_get (user_karma (like user post w).1) a 0
  = dict_get (user_karma w) a 0
    + (if has_like user post w then 0
       else if decide (post_author post = a) then 5 else 0).
Proof.
  destruct (has_like user post w) eqn:E.
  - unfold like, get_or_create. rewrite E. simpl. lia.
  - rewrite like_first by done. cbn [fst].
    apply (create_unconstrained_karma user post w a).
Qed.

(** ** More about the like transition *)

Lemma same_like_true user post l :
  same_like user post l = true ↔
  postlike_user l = user ∧ post_id (postlike_post l) = post_id post.
Proof.
  unfold same_like. rewrite andb_true_iff, !bool_decide_eq_true. tauto.
Qed.

Lemma has_like_count user post w :
  has_like user post w = false ↔
  filter (fun l => same_like user post l = true) (post_likes w) = [].
Proof.
  unfold has_like. induction (post_likes w) as [|l t IH]; [done|].
  simpl. rewrite filter_cons.
  destruct (same_like user post l) eqn:E; simpl.
  - destruct (decide (true = true)); [|done]. split; intros; discriminate.
  - destruct (decide (false = true)); [discriminate|]. exact IH.
Qed.

Lemma like_world user post w :
  (like user post w).1
  = if has_like user post w then w else create_unconstrained user post w.
Proof.
  destruct (has_like user post w) eqn:E.
  - unfold like, get_or_create. by rewrite E.
  - by rewrite like_first.
Qed.

Lemma like_keeps_unique user post w :
  unique_post_like w → unique_post_like (like user post w).1.
Proof.
  intros Hu. rewrite like_world. destruct (has_like user post w) eqn:E; [done|].
  intros user' post'. unfold create_unconstrained. cbn [post_likes].
  rewrite filter_app, length_app, filter_cons, filter_nil.
  destruct (decide (same_like user' post' _ = true)) as [Hs|_]; simpl length.
  - apply same_like_true in Hs as [Hs1 Hs2]. simpl in Hs1, Hs2.
    apply has_like_count in E.
    assert (filter (fun l => same_like user' post' l = true) (post_likes w) = []) as ->; [|simpl; lia].
    rewrite <- E. apply list_filter_iff. intros l. rewrite !same_like_true.
    rewrite <- Hs1, <- Hs2. tauto.
  - pose proof (Hu user' post'). lia.
Qed.

(** X6: the like view keeps the constraint [unique_post_like]: after any
    sequence of like requests, made at any times, the table still holds
    at most one row per (user, post). *)
Theorem X6_likes_keep_one_row_per_pair (requests : list (Z * Z * Post)) (w : World) :
  unique_post_like w → unique_post_like (like_all requests w).
Proof.
  unfold like_all. revert w. induction requests as [|r requests IH]; intros w Hu; [done|].
  simpl. apply IH. by apply like_keeps_unique.
Qed.

(** X7: a like directly repeated is answered with the conflict and
    changes nothing: after the first call the state is a fixed point of
    the view. *)
Theorem X7_repeated_like_is_conflict (user : Z) (post : Post) (w : World) :
  like user post (like user post w).1
  = ((like user post w).1,
     {| status := HTTP_400_BAD_REQUEST; detail := "Already liked this post" |}).
Proof.
  unfold like at 1, get_or_create. by rewrite like_sets_liked.
Qed.

(** X8: a like touches nothing but its own pair: the Liked state of every
    other (user, post) pair, the comment likes and the clock are as
    before, and the rows that were in the table stay, in their order, at
    its front. *)
Theorem X8_like_leaves_other_pairs (user : Z) (post : Post) (w : World)
    (user' : Z) (post' : Post) :
  user' ≠ user ∨ post_id post' ≠ post_id post →
  has_like user' post' (like user post w).1 = has_like user' post' w ∧
  comment_likes (like user post w).1 = comment_likes w ∧
  clock (like user post w).1 = clock w ∧
  post_likes w `prefix_of` post_likes (like user post w).1.
Proof.
  intros Hother. rewrite like_world.
  destruct (has_like user post w); [done|].
  unfold create_unconstrained, has_like. cbn [post_likes comment_likes clock].
  split; [|split; [done|split; [done|by apply prefix_app_r]]].
  rewrite existsb_app. simpl.
  assert (same_like user' post'
            {| postlike_user := user; postlike_post := post;
               postlike_created_at := clock w |} = false) as ->.
  { apply not_true_is_false. rewrite same_like_true. simpl. intros [-> Hp].
    destruct Hother; congruence. }
  by rewrite !orb_false_r.
Qed.

Lemma world_liked_unique : unique_post_like world_liked.
Proof.
  intros user post.
  pose proof (length_filter (fun l => same_like user post l = true) (post_likes world_liked)) as H.
  simpl in *. lia.
Qed.

Lemma X6_likes_keep_one_row_per_pair_witness :
  unique_post_like (like_all [(100 * hour, 7, post3); (101 * hour, 8, post3)] world_liked).
Proof.
  apply (X6_likes_keep_one_row_per_pair
           [(100 * hour, 7, post3); (101 * hour, 8, post3)] world_liked).
  exact world_liked_unique.
Defined.

Lemma X8_like_leaves_other_pairs_witness :
  has_like 7 post3 (like 8 post3 world_liked).1 = has_like 7 post3 world_liked ∧
  comment_likes (like 8 post3 world_liked).1 = comment_likes world_liked ∧
  clock (like 8 post3 world_liked).1 = clock world_liked ∧
  post_likes world_liked `prefix_of` post_likes (like 8 post3 world_liked).1.
Proof.
  apply (X8_like_leaves_other_pairs 8 post3 world_liked 7 post3). left. lia.
Defined.

Lemma create_sets_liked user post w :
  has_like user post (create_unconstrained user post w) = true.
Proof.
  unfold has_like, create_unconstrained. cbn [post_likes].
  rewrite existsb_app. simpl.
  assert (same_like user post
            {| postlike_user := user; postlike_post := post;
               postlike_created_at := clock w |} = true) as -> by by apply same_like_true.
  by rewrite orb_true_r.
Qed.

Lemma like_after_lookup_existing (found : bool) user post w :
  has_like user post w = true →
  like_after_lookup found user post w
  = (w, {| status := HTTP_400_BAD_REQUEST; detail := "Already liked this post" |}).
Proof.
  intros H. unfold like_after_lookup, create. rewrite H. by destruct found.
Qed.

(** X9: when two like requests of one user for one post interleave, so
    that the second looked the row up before the first inserted it, the
    unique constraint rejects the second insertion and the fixed view
    answers it with the conflict: one row is written, not two.  Whatever
    the lookup had answered, a request that finds the row present at its
    write leaves the table as it is. *)
Theorem X9_interleaved_likes_write_one_row (user : Z) (post : Post) (w : World) :
  (∀ found, has_like user post w = true →
     like_after_lookup found user post w
     = (w, {| status := HTTP_400_BAD_REQUEST; detail := "Already liked this post" |})) ∧
  (has_like user post w = false →
     like_after_lookup false user post w
     = (create_unconstrained user post w,
        {| status := HTTP_200_OK; detail := "Post liked successfully" |}) ∧
     like_after_lookup false user post (create_unconstrained user post w)
     = (create_unconstrained user post w,
        {| status := HTTP_400_BAD_REQUEST; detail := "Already liked this post" |})) ∧
  like_after_lookup (has_like user post w) user post w = like user post w.
Proof.
  split; [|split].
  - intros found H. by apply like_after_lookup_existing.
  - intros H. split.
    + unfold like_after_lookup, create. by rewrite H.
    + apply like_after_lookup_existing, create_sets_liked.
  - unfold like_after_lookup, like, get_or_create. by destruct (has_like user post w).
Qed.

Lemma X9_interleaved_likes_write_one_row_witness :
  like_after_lookup false 8 post3 (create_unconstrained 8 post3 world_liked)
  = (create_unconstrained 8 post3 world_liked,
     {| status := HTTP_400_BAD_REQUEST; detail := "Already liked this post" |}).
Proof.
  destruct (X9_interleaved_likes_write_one_row 8 post3 world_liked) as (_ & H & _).
  apply H. reflexivity.
Defined.

(** X10: the first version of the view answers and writes like the fixed
    one when requests do not interleave; when two requests interleave so
    that both pass the existence test, it writes the row twice, the table
    breaks [unique_post_like], and the post's author is credited 10
    karma for the one post liked by one user. *)
Theorem X10_first_version_duplicates_under_interleaving (user : Z) (post : Post)
    (w : World) :
  ((like_initial user post w).1 = (like user post w).1 ∧
   status (like_initial user post w).2 = status (like user post w).2) ∧
  (has_like user post w = false →
     let w1 := (like_initial_after_check false user post w).1 in
     let w2 := (like_initial_after_check false user post w1).1 in
     status (like_initial_after_check false user post w1).2 = HTTP_200_OK ∧
     length (filter (fun l => same_like user post l = true) (post_likes w2)) = 2%nat ∧
     ¬ unique_post_like w2 ∧
     dict_get (user_karma w2) (post_author post) 0
     = dict_get (user_karma w) (post_author post) 0 + 10).
Proof.
  split.
  - unfold like_initial, like_initial_after_check. rewrite like_world.
    destruct (has_like user post w) eqn:E.
    + unfold like, get_or_create. by rewrite E.
    + by rewrite like_first.
  - intros H. cbn zeta. unfold like_initial_after_check. cbn [fst snd status].
    assert (length (filter (fun l => same_like user post l = true)
                      (post_likes (create_unconstrained user post
                                     (create_unconstrained user post w)))) = 2%nat) as Hcount.
    { unfold create_unconstrained. cbn [post_likes clock].
      rewrite !filter_app, !length_app. apply has_like_count in H. rewrite H.
      rewrite !filter_cons, !filter_nil.
      destruct (decide (same_like user post _ = true)) as [_|Hn]; [done|].
      exfalso. apply Hn. by apply same_like_true. }
    split; [done|]. split; [done|]. split.
    + intros Hu. specialize (Hu user post). lia.
    + rewrite !create_unconstrained_karma.
      destruct (decide (post_author post = post_author post)); [lia|done].
Qed.

Lemma X10_first_version_duplicates_under_interleaving_witness :
  ¬ unique_post_like
      (like_initial_after_check false 8 post3
         (like_initial_after_check false 8 post3 world_liked).1).1.
Proof.
  destruct (X10_first_version_duplicates_under_interleaving 8 post3 world_liked) as [_ H].
  apply H. reflexivity.
Defined.

(** ** More about the grouping *)

Lemma tree_step_insert tree c :
  tree_step tree c
  = <[parent_id c := default [] (tree !! parent_id c) ++ [c]]> tree.
Proof.
  unfold tree_step. destruct (tree !! parent_id c) eqn:E.
  - by rewrite E.
  - by rewrite lookup_insert_eq, insert_insert_eq.
Qed.

Lemma bucket_total_step tree c :
  bucket_total (tree_step tree c) = S (bucket_total tree).
Proof.
  rewrite tree_step_insert. unfold bucket_total.
  destruct (tree !! parent_id c) as [l0|] eqn:E; simpl.
  - rewrite <- insert_delete_eq.
    rewrite map_fold_insert_L; [|intros; lia|apply lookup_delete_eq].
    rewrite (map_fold_delete_L _ _ (parent_id c) l0 tree); [|intros; lia|done].
    rewrite length_app. simpl. lia.
  - rewrite map_fold_insert_L; [|intros; lia|done]. done.
Qed.

Lemma bucket_total_foldl cs tree :
  bucket_total (foldl tree_step tree cs) = (bucket_total tree + length cs)%nat.
Proof.
  revert tree. induction cs as [|c cs IH]; intros tree; simpl; [lia|].
  rewrite IH, bucket_total_step. lia.
Qed.

(** X11: the grouping is a partition of the input: its keys are exactly
    the parent ids that occur, a bucket holds exactly the comments with
    that parent id (so every comment is in the bucket of its parent and
    in no other), and the buckets together hold as many comments as the
    input; the empty input gives the empty dict. *)
Theorem X11_grouping_partitions_the_input (comments : list Comment) :
  (∀ p, is_Some (build_comment_tree comments !! p) ↔
        ∃ c, c ∈ comments ∧ parent_id c = p) ∧
  (∀ p l c, build_comment_tree comments !! p = Some l →
            (c ∈ l ↔ c ∈ comments ∧ parent_id c = p)) ∧
  bucket_total (build_comment_tree comments) = length comments ∧
  build_comment_tree [] = ∅.
Proof.
  split; [|split; [|split]].
  - intros p. split.
    + intros [l Hl]. apply build_comment_tree_lookup in Hl as [-> Hne].
      destruct (children_of comments p) as [|c l] eqn:E; [done|].
      exists c. assert (c ∈ children_of comments p) as Hc by (rewrite E; left).
      apply bucket_elem in Hc. tauto.
    + intros (c & Hc & <-). destruct (bucket_present comments c Hc) as (l & Hl & _).
      by exists l.
  - intros p l c Hl. apply build_comment_tree_lookup in Hl as [-> _].
    rewrite bucket_elem. tauto.
  - unfold build_comment_tree. rewrite bucket_total_foldl.
    unfold bucket_total. by rewrite map_fold_empty.
  - done.
Qed.

Lemma X11_grouping_partitions_the_input_witness :
  mkc 3 (Some 1) 3 ∈ [mkc 2 (Some 1) 2; mkc 3 (Some 1) 3] ↔
  mkc 3 (Some 1) 3 ∈ comments_A ∧ parent_id (mkc 3 (Some 1) 3) = Some 1.
Proof.
  destruct (X11_grouping_partitions_the_input comments_A) as (_ & H & _).
  apply (H (Some 1)). vm_compute. reflexivity.
Defined.

(** ** More about the frontend *)

(** X12: [fetchApi] returns data exactly when the response is ok and
    its body parses, and then returns the parsed body; an ok response
    whose body does not parse is rejected with the parser's error.  A
    response that is not ok always throws: with the [detail] of the body
    when that is a non-empty string, and with "Request failed" when the
    body does not parse, has no [detail], or has a falsy one. *)
Theorem X12_fetchApi_outcomes (response : HttpResponse) :
  (∀ data, fetchApi response = inr data ↔
           ok response = true ∧ body response = Parsed data) ∧
  (ok response = true → ∀ syntax_error,
     body response = NotJson syntax_error → fetchApi response = inl syntax_error) ∧
  (ok response = false → ∃ message, fetchApi response = inl message) ∧
  (ok response = false → ∀ fields s,
     body response = Parsed (JObject fields) →
     get_field "detail" fields = Some (JString s) → s ≠ "" →
     fetchApi response = inl s) ∧
  (ok response = false →
     (∃ syntax_error, body response = NotJson syntax_error) ∨
     (∃ value, body response = Parsed value ∧ value ≠ JNull ∧
        (detail_of value = None ∨
         ∃ d, detail_of value = Some d ∧ truthy d = false)) →
     fetchApi response = inl "Request failed").
Proof.
  unfold fetchApi. destruct response as [o b]. cbn [ok body].
  split; [|split; [|split; [|split]]].
  - intros data. destruct o; simpl.
    + destruct b as [m|v]; split; [done| |by intros [= ->]|].
      * intros [_ [=]].
      * intros [_ [= ->]]. done.
    + split; [|intros [[=] _]].
      destruct b as [m|v]; [done|]. destruct v; try done;
        repeat match goal with
               | |- context [detail_of ?v] => destruct (detail_of v) as [d|]
               | |- context [truthy ?d] => destruct (truthy d)
               end; done.
  - intros -> m ->. done.
  - intros ->. simpl. destruct b as [m|v]; [by eexists|].
    destruct v; try (by eexists);
      repeat match goal with
             | |- context [detail_of ?v] => destruct (detail_of v) as [d|]
             | |- context [truthy ?d] => destruct (truthy d)
             end; by eexists.
  - intros -> fields s -> Hd Hs. simpl. rewrite Hd. simpl.
    by rewrite bool_decide_eq_false_2.
  - intros -> [[m ->]|(v & -> & Hv & Hd)]; simpl; [done|].
    destruct v; try done; destruct Hd as [->|(d & -> & ->)]; done.
Qed.

Lemma X12_fetchApi_outcomes_witness :
  fetchApi (http_response (like 7 post3 world_liked).2) = inl "Already liked this post".
Proof.
  destruct (X12_fetchApi_outcomes (http_response (like 7 post3 world_liked).2))
    as (_ & _ & _ & H & _).
  apply (H eq_refl [("detail", JString "Already liked this post")]).
  - reflexivity.
  - reflexivity.
  - discriminate.
Defined.

(** X13: when the server answers a like request as the [like] view does,
    a click on the like button of a post that the page shows as not liked
    never sets the error state: a first like starts a reload, and the
    conflict of an already liked post is swallowed without any change. *)
Theorem X13_like_click_shows_no_error (server : Endpoint → HttpResponse)
    (user : Z) (post : Post) (w : World) (st : UiState) :
  server (LikePost (post_id post)) = http_response (like user post w).2 →
  App_handleLikePost server (post_id post) false st
    = (if has_like user post w then st else startReload st) ∧
  PostDetail_handleLikePost server (post_id post) false st
    = (if has_like user post w then st else startReload st) ∧
  error (App_handleLikePost server (post_id post) false st) = error st ∧
  error (PostDetail_handleLikePost server (post_id post) false st) = error st.
Proof.
  intros Hserver.
  unfold App_handleLikePost, PostDetail_handleLikePost, likePost. rewrite Hserver.
  destruct (has_like user post w) eqn:E.
  - unfold like, get_or_create. rewrite E. done.
  - rewrite like_first by done. done.
Qed.

Lemma X13_like_click_shows_no_error_witness :
  App_handleLikePost (fun _ => http_response (like 7 post3 world_liked).2)
    (post_id post3) false st0 = st0.
Proof.
  apply (X13_like_click_shows_no_error
           (fun _ => http_response (like 7 post3 world_liked).2) 7 post3 world_liked st0).
  reflexivity.
Defined.

(** X17: when [loadPost] has finished the page is no longer loading.  A
    request that succeeded sets the post to the parsed body and leaves
    the error state alone; one that failed keeps the post and stores the
    message, and the error page with that message is shown when the
    message is not empty, while for an empty message the page renders
    the post as it was.  An error with a non-empty message that was set
    before is not cleared by a reload that succeeds or fails with a
    non-empty message: the page stays an error page. *)
Theorem X17_loadPost_outcomes (response : HttpResponse) (st : PostDetailState) :
  pd_loading (loadPost (fetchApi response) st) = false ∧
  (∀ data, fetchApi response = inr data →
     pd_post (loadPost (fetchApi response) st) = data ∧
     pd_error (loadPost (fetchApi response) st) = pd_error st) ∧
  (∀ message, fetchApi response = inl message →
     pd_post (loadPost (fetchApi response) st) = pd_post st ∧
     pd_error (loadPost (fetchApi response) st) = Some message ∧
     (message ≠ "" →
      PostDetail_render (loadPost (fetchApi response) st) = ErrorView message) ∧
     (message = "" →
      PostDetail_render (loadPost (fetchApi response) st) = PostView (pd_post st))) ∧
  (∀ message, pd_error st = Some message → message ≠ "" →
     fetchApi response ≠ inl "" →
     ∃ message', PostDetail_render (loadPost (fetchApi response) st) = ErrorView message').
Proof.
  destruct (fetchApi response) as [m|data]; unfold PostDetail_render; simpl.
  - split; [done|]. split; [done|]. split.
    + intros message [= <-]. split; [done|]. split; [done|].
      destruct (decide (m = "")); split; intros; done.
    + intros message Hm Hne Hresp. destruct (decide (m = "")) as [->|]; [done|].
      by exists m.
  - split; [done|]. split; [by intros ? [= <-]|]. split; [done|].
    intros message -> Hne _. destruct (decide (message = "")); [done|]. by exists message.
Qed.

Lemma X17_loadPost_outcomes_witness :
  PostDetail_render (loadPost (fetchApi response_empty_array_detail) PostDetail_initial)
  = PostView JNull.
Proof.
  destruct (X17_loadPost_outcomes response_empty_array_detail PostDetail_initial)
    as (_ & _ & H & _).
  destruct (H "" eq_refl) as (_ & _ & _ & Hempty).
  apply Hempty. reflexivity.
Defined.

(** X18: [loadData] updates all or nothing: when both requests succeed
    the posts and the leaderboard are replaced together and the error
    state is left as it was; when one of them fails neither list changes
    and the error state holds the message of a failed request.  In every
    case loading ends and the draft of the new post is untouched. *)
Theorem X18_loadData_all_or_nothing (postsResult : string + PostsData)
    (leaderboardResult : string + list LeaderRow) (leaderboard_first : bool)
    (st : AppState) :
  app_loading (loadData postsResult leaderboardResult leaderboard_first st) = false ∧
  app_newPostContent (loadData postsResult leaderboardResult leaderboard_first st)
    = app_newPostContent st ∧
  ((∃ postsData leaderboardData,
      postsResult = inr postsData ∧ leaderboardResult = inr leaderboardData ∧
      app_posts (loadData postsResult leaderboardResult leaderboard_first st)
        = results_or_self postsData ∧
      app_leaderboard (loadData postsResult leaderboardResult leaderboard_first st)
        = leaderboardData ∧
      app_error (loadData postsResult leaderboardResult leaderboard_first st)
        = app_error st) ∨
   (app_posts (loadData postsResult leaderboardResult leaderboard_first st)
      = app_posts st ∧
    app_leaderboard (loadData postsResult leaderboardResult leaderboard_first st)
      = app_leaderboard st ∧
    ∃ message,
      app_error (loadData postsResult leaderboardResult leaderboard_first st)
        = Some message ∧
      (postsResult = inl message ∨ leaderboardResult = inl message))).
Proof.
  destruct postsResult as [m1|pd], leaderboardResult as [m2|lb]; simpl;
    (split; [done|]); (split; [done|]).
  - right. split; [done|]. split; [done|].
    destruct leaderboard_first; [exists m2|exists m1]; auto.
  - right. split; [done|]. split; [done|]. exists m1. auto.
  - right. split; [done|]. split; [done|]. exists m2. auto.
  - left. exists pd, lb. auto.
Qed.

(** X19: the three submit handlers send nothing for a draft that is blank
    after trimming and leave the state as it is; otherwise they send the
    draft as typed, and then either the server accepts (the draft is
    cleared, one reload is started, the error state is untouched; a reply
    also closes its form) or the error message is stored in the error
    state, whatever it says, and the draft is kept. *)
Theorem X19_submit_handlers (trim : string → string)
    (server : WriteEndpoint → HttpResponse) (postId parentId : Z)
    (app : AppState) (st : PostDetailState) :
  (trim (app_newPostContent app) = "" → handleCreatePost trim server app = app) ∧
  (trim (pd_newComment st) = "" → handleSubmitComment trim server postId st = st) ∧
  (trim (pd_replyContent st) = "" →
   handleSubmitReply trim server postId parentId st = st) ∧
  (trim (app_newPostContent app) ≠ "" →
   match fetchApi (server (CreatePost (app_newPostContent app))) with
   | inr _ =>
       app_newPostContent (handleCreatePost trim server app) = "" ∧
       app_reloads (handleCreatePost trim server app) = S (app_reloads app) ∧
       app_error (handleCreatePost trim server app) = app_error app
   | inl message =>
       app_newPostContent (handleCreatePost trim server app) = app_newPostContent app ∧
       app_reloads (handleCreatePost trim server app) = app_reloads app ∧
       app_error (handleCreatePost trim server app) = Some message
   end) ∧
  (trim (pd_newComment st) ≠ "" →
   match fetchApi (server (CreateComment postId (pd_newComment st) None)) with
   | inr _ =>
       pd_newComment (handleSubmitComment trim server postId st) = "" ∧
       pd_reloads (handleSubmitComment trim server postId st) = S (pd_reloads st) ∧
       pd_error (handleSubmitComment trim server postId st) = pd_error st
   | inl message =>
       pd_newComment (handleSubmitComment trim server postId st) = pd_newComment st ∧
       pd_reloads (handleSubmitComment trim server postId st) = pd_reloads st ∧
       pd_error (handleSubmitComment trim server postId st) = Some message
   end) ∧
  (trim (pd_replyContent st) ≠ "" →
   match fetchApi (server (CreateComment postId (pd_replyContent st) (Some parentId))) with
   | inr _ =>
       pd_replyContent (handleSubmitReply trim server postId parentId st) = "" ∧
       pd_replyingTo (handleSubmitReply trim server postId parentId st) = None ∧
       pd_reloads (handleSubmitReply trim server postId parentId st) = S (pd_reloads st) ∧
       pd_error (handleSubmitReply trim server postId parentId st) = pd_error st
   | inl message =>
       pd_replyContent (handleSubmitReply trim server postId parentId st)
         = pd_replyContent st ∧
       pd_replyingTo (handleSubmitReply trim server postId parentId st)
         = pd_replyingTo st ∧
       pd_reloads (handleSubmitReply trim server postId parentId st) = pd_reloads st ∧
       pd_error (handleSubmitReply trim server postId parentId st) = Some message
   end).
Proof.
  unfold handleCreatePost, handleSubmitComment, handleSubmitReply, createPost,
    createComment.
  split; [|split; [|split; [|split; [|split]]]]; intros H.
  - by destruct (decide (trim (app_newPostContent app) = "")).
  - by destruct (decide (trim (pd_newComment st) = "")).
  - by destruct (decide (trim (pd_replyContent st) = "")).
  - destruct (decide (trim (app_newPostContent app) = "")); [done|].
    by destruct (fetchApi _).
  - destruct (decide (trim (pd_newComment st) = "")); [done|].
    by destruct (fetchApi _).
  - destruct (decide (trim (pd_replyContent st) = "")); [done|].
    by destruct (fetchApi _).
Qed.

Lemma X19_submit_handlers_witness :
  handleSubmitComment (fun s => s) (fun _ => {| ok := true; body := Parsed JNull |})
    3 PostDetail_initial = PostDetail_initial.
Proof.
  destruct (X19_submit_handlers (fun s => s)
              (fun _ => {| ok := true; body := Parsed JNull |}) 3 0
              {| app_posts := []; app_leaderboard := []; app_newPostContent := "";
                 app_loading := true; app_error := None; app_reloads := 0 |}
              PostDetail_initial) as (_ & H & _).
  apply H. reflexivity.
Defined.

(** ** The comment tree component *)

Lemma JsonComment_forall (P : JsonComment → Prop) :
  (∀ i liked count replies, Forall P replies → P (JComment i liked count replies)) →
  ∀ c, P c.
Proof.
  intros H. fix IH 1. intros [i liked count replies]. apply H.
  induction replies as [|r replies IHr]; constructor; [apply IH|exact IHr].
Qed.

Lemma render_comment_ids replyingTo depth c :
  rc_id <$> render_comment replyingTo depth c = json_ids c.
Proof.
  revert depth. induction c as [i liked count replies IH] using JsonComment_forall.
  intros depth. cbn [render_comment json_ids]. rewrite fmap_cons. cbn [rc_id]. f_equal.
  induction IH as [|r replies Hr _ IHrs]; [done|].
  rewrite !bind_cons, fmap_app, Hr. by f_equal.
Qed.

Lemma CommentTree_ids replyingTo depth comments :
  rc_id <$> CommentTree replyingTo depth comments = comments ≫= json_ids.
Proof.
  unfold CommentTree. induction comments as [|c comments IH]; [done|].
  by rewrite !bind_cons, fmap_app, render_comment_ids, IH.
Qed.

Lemma render_comment_rows replyingTo depth c row :
  row ∈ render_comment replyingTo depth c →
  (depth ≤ rc_depth row)%nat ∧
  rc_reply_button row = bool_decide (rc_depth row ≤ 3)%nat ∧
  rc_indented row = bool_decide (0 < rc_depth row)%nat ∧
  (rc_onLike row).1 = rc_id row ∧
  rc_reply_form row = bool_decide (replyingTo = Some (rc_id row)).
Proof.
  revert depth. induction c as [i liked count replies IH] using JsonComment_forall.
  intros depth. cbn [render_comment]. intros Hrow.
  apply elem_of_cons in Hrow as [->|Hrow].
  - cbn. split; [lia|]. split; [|done]. unfold maxDepth.
    apply bool_decide_ext. lia.
  - apply list_elem_of_bind in Hrow as (r & Hrow & Hr).
    rewrite Forall_forall in IH. destruct (IH r Hr (S depth) Hrow) as (Hd & Hrest).
    split; [lia|done].
Qed.

(** X14: the component renders every comment of the nested list exactly
    once, a comment before its replies and the replies in their order, at
    whatever depth it sits: the depth limit of the component hides no
    comment.  The like button of a row passes the id of that row. *)
Theorem X14_CommentTree_renders_every_comment (replyingTo : option Z) (depth : nat)
    (comments : list JsonComment) :
  rc_id <$> CommentTree replyingTo depth comments = comments ≫= json_ids ∧
  length (CommentTree replyingTo depth comments) = length (comments ≫= json_ids) ∧
  (∀ row, row ∈ CommentTree replyingTo depth comments → (rc_onLike row).1 = rc_id row).
Proof.
  split; [apply CommentTree_ids|]. split.
  - by rewrite <- (CommentTree_ids replyingTo depth comments), length_fmap.
  - intros row Hrow. apply list_elem_of_bind in Hrow as (c & Hrow & _).
    by apply (render_comment_rows replyingTo depth c row) in Hrow as (_ & _ & _ & H & _).
Qed.

(** X15: a row has the Reply button exactly when it is rendered at depth
    3 or less, and its list is indented exactly when its depth is not 0;
    rows below depth 4 are still rendered, without the button. *)
Theorem X15_reply_button_down_to_depth_three (replyingTo : option Z) (depth : nat)
    (comments : list JsonComment) (row : RenderedComment) :
  row ∈ CommentTree replyingTo depth comments →
  (depth ≤ rc_depth row)%nat ∧
  (rc_reply_button row = true ↔ (rc_depth row ≤ 3)%nat) ∧
  (rc_indented row = true ↔ (0 < rc_depth row)%nat).
Proof.
  intros Hrow. apply list_elem_of_bind in Hrow as (c & Hrow & _).
  apply (render_comment_rows replyingTo depth c row) in Hrow as (Hd & -> & -> & _).
  by rewrite !bool_decide_eq_true.
Qed.

Lemma X14_CommentTree_renders_every_comment_witness :
  rc_id <$> CommentTree None 0 json_thread = [1; 2; 3; 4; 5; 6].
Proof.
  destruct (X14_CommentTree_renders_every_comment None 0 json_thread) as (H & _).
  exact H.
Defined.

Lemma X15_reply_button_down_to_depth_three_witness :
  (0 ≤ rc_depth row_five)%nat ∧
  (rc_reply_button row_five = true ↔ (rc_depth row_five ≤ 3)%nat) ∧
  (rc_indented row_five = true ↔ (0 < rc_depth row_five)%nat).
Proof.
  apply (X15_reply_button_down_to_depth_three None 0 json_thread).
  vm_compute. do 4 right. left.
Defined.

Lemma filter_ext_elem {A} (P Q : A → Prop) `{∀ a, Decision (P a)} `{∀ a, Decision (Q a)}
    (l : list A) :
  (∀ x, x ∈ l → P x ↔ Q x) → filter P l = filter Q l.
Proof.
  induction l as [|x l IH]; intros HPQ; [done|].
  rewrite !filter_cons.
  assert (filter P l = filter Q l) as -> by (apply IH; intros y Hy; apply HPQ; by right).
  destruct (decide (P x)) as [HP|HP], (decide (Q x)) as [HQ|HQ]; try done;
    exfalso; [apply HQ|apply HP]; by apply (HPQ x (list_elem_of_here x l)).
Qed.

Lemma filter_fiber_NoDup {A} (f : A → Z) (i : Z) (l : list A) :
  NoDup (f <$> l) → (length (filter (fun x => f x = i) l) ≤ 1)%nat.
Proof.
  induction l as [|x l IH]; intros Hnd; [simpl; lia|].
  rewrite fmap_cons in Hnd. apply NoDup_cons in Hnd as [Hx Hl].
  rewrite filter_cons. destruct (decide (f x = i)) as [<-|_]; [|by apply IH].
  assert (filter (fun y => f y = f x) l = []) as ->; [|simpl; lia].
  destruct (filter (fun y => f y = f x) l) as [|y k] eqn:E; [done|].
  assert (y ∈ filter (fun y => f y = f x) l) as Hy by (rewrite E; left).
  apply list_elem_of_filter in Hy as [Hy Hin].
  exfalso. apply Hx. rewrite <- Hy. by apply list_elem_of_fmap_2.
Qed.

(** X16: the reply form is rendered in the rows whose comment id is
    [replyingTo] and in no other row; when the ids of the comments are
    distinct that is at most one row, and no row when [replyingTo] is
    null. *)
Theorem X16_at_most_one_reply_form (replyingTo : option Z) (depth : nat)
    (comments : list JsonComment) :
  NoDup (comments ≫= json_ids) →
  (∀ row, row ∈ CommentTree replyingTo depth comments →
          (rc_reply_form row = true ↔ replyingTo = Some (rc_id row))) ∧
  (length (filter (fun row => rc_reply_form row = true)
                  (CommentTree replyingTo depth comments)) ≤ 1)%nat ∧
  (replyingTo = None →
   filter (fun row => rc_reply_form row = true)
          (CommentTree replyingTo depth comments) = []).
Proof.
  intros Hnd.
  assert (∀ row, row ∈ CommentTree replyingTo depth comments →
                 (rc_reply_form row = true ↔ replyingTo = Some (rc_id row))) as Hform.
  { intros row Hrow. apply list_elem_of_bind in Hrow as (c & Hrow & _).
    apply (render_comment_rows replyingTo depth c row) in Hrow as (_ & _ & _ & _ & ->).
    by rewrite bool_decide_eq_true. }
  split; [done|].
  destruct replyingTo as [i|].
  - split; [|done].
    rewrite (filter_ext_elem _ (fun row => rc_id row = i)).
    + apply filter_fiber_NoDup. by rewrite CommentTree_ids.
    + intros row Hrow. rewrite (Hform row Hrow). split; [by intros [= ->]|by intros ->].
  - assert (filter (fun row => rc_reply_form row = true) (CommentTree None depth comments)
            = []) as Hnil.
    { destruct (filter _ _) as [|row k] eqn:E; [done|].
      assert (row ∈ filter (fun row => rc_reply_form row = true)
                       (CommentTree None depth comments)) as Hrow by (rewrite E; left).
      apply list_elem_of_filter in Hrow as [Ht Hrow]. by apply Hform in Ht. }
    rewrite Hnil. split; [simpl; lia|done].
Qed.

Lemma X16_at_most_one_reply_form_witness :
  (length (filter (fun row => rc_reply_form row = true)
                  (CommentTree (Some 3%Z) 0 json_thread)) ≤ 1)%nat.
Proof.
  apply (X16_at_most_one_reply_form (Some 3) 0%nat json_thread).
  change (json_thread ≫= json_ids) with [1; 2; 3; 4; 5; 6].
  repeat (constructor; [rewrite ?elem_of_cons, elem_of_nil; lia|]). constructor.
Defined.

(** ** The leaderboard component *)

(** X20: [Leaderboard] shows the placeholder exactly for the empty list;
    otherwise it shows one row per user in the order of the list, with
    the ranks 1, 2, ... whatever the karma values are (the component
    does not sort), each row carrying its user's id and karma, and the
    plain badge exactly from rank 4 on. *)
Theorem X20_Leaderboard_ranks_follow_the_list (users : list LeaderRow) :
  (Leaderboard users = None ↔ users = []) ∧
  (∀ rows, Leaderboard users = Some rows →
     rr_rank <$> rows = seq 1 (length users) ∧
     rr_key <$> rows = lr_id <$> users ∧
     rr_karma <$> rows = lr_karma_24h <$> users ∧
     (∀ row, row ∈ rows → (rr_badge row = Gray200 ↔ (3 < rr_rank row)%nat))).
Proof.
  unfold Leaderboard. split.
  - destruct (decide (length users = 0%nat)) as [H|H].
    + split; [|done]. intros _. by destruct users.
    + split; [done|]. intros ->. done.
  - intros rows. destruct (decide (length users = 0%nat)); [done|]. intros [= <-].
    split; [|split; [|split]].
    + rewrite fmap_imap.
      rewrite (imap_ext _ (fun j _ => S j)) by (intros; simpl; lia).
      by rewrite imap_seq_0, fmap_S_seq.
    + rewrite fmap_imap. by rewrite (imap_ext _ (const lr_id)), imap_const.
    + rewrite fmap_imap. by rewrite (imap_ext _ (const lr_karma_24h)), imap_const.
    + intros row Hrow. apply list_elem_of_lookup in Hrow as [i Hi].
      rewrite list_lookup_imap in Hi.
      destruct (users !! i) as [user|]; [|done]. injection Hi as <-. simpl.
      unfold badge_of.
      destruct (decide (i = 0%nat)), (decide (i = 1%nat)), (decide (i = 2%nat));
        split; intros; try done; lia.
Qed.

Lemma X20_Leaderboard_ranks_follow_the_list_witness :
  ∃ rows, Leaderboard users_two = Some rows ∧ rr_rank <$> rows = seq 1 (length users_two).
Proof.
  destruct (X20_Leaderboard_ranks_follow_the_list users_two) as [_ H].
  eexists. split; [reflexivity|]. apply H. reflexivity.
Defined.

(** ** The like handlers, once more *)

(** X21: a like handler talks to one endpoint only, the unlike endpoint
    when the item is shown as liked and the like endpoint otherwise: two
    servers that agree on that endpoint give the same result.  No like
    handler clears the error state or takes back a reload. *)
Theorem X21_like_handlers_toggle (server server' : Endpoint → HttpResponse)
    (id : Z) (hasLiked : bool) (st : UiState) :
  (server (if hasLiked then UnlikePost id else LikePost id)
   = server' (if hasLiked then UnlikePost id else LikePost id) →
   App_handleLikePost server id hasLiked st = App_handleLikePost server' id hasLiked st ∧
   PostDetail_handleLikePost server id hasLiked st
   = PostDetail_handleLikePost server' id hasLiked st) ∧
  (server (if hasLiked then UnlikeComment id else LikeComment id)
   = server' (if hasLiked then UnlikeComment id else LikeComment id) →
   PostDetail_handleLikeComment server id hasLiked st
   = PostDetail_handleLikeComment server' id hasLiked st) ∧
  (error st ≠ None →
   error (App_handleLikePost server id hasLiked st) ≠ None ∧
   error (PostDetail_handleLikePost server id hasLiked st) ≠ None ∧
   error (PostDetail_handleLikeComment server id hasLiked st) ≠ None) ∧
  (reloads st ≤ reloads (App_handleLikePost server id hasLiked st) ∧
   reloads st ≤ reloads (PostDetail_handleLikePost server id hasLiked st) ∧
   reloads st ≤ reloads (PostDetail_handleLikeComment server id hasLiked st))%nat.
Proof.
  unfold App_handleLikePost, PostDetail_handleLikePost, PostDetail_handleLikeComment,
    likePost, unlikePost, likeComment, unlikeComment, catch_like_error.
  split; [|split; [|split]].
  - intros H. destruct hasLiked; by rewrite H.
  - intros H. destruct hasLiked; by rewrite H.
  - intros Herr. destruct hasLiked;
      repeat split;
      match goal with
      | |- context [fetchApi ?r] =>
          destruct (fetchApi r) as [m|]; [destruct (includes m "Already")|]; simpl; done
      end.
  - destruct hasLiked;
      repeat split;
      match goal with
      | |- context [fetchApi ?r] =>
          destruct (fetchApi r) as [m|]; [destruct (includes m "Already")|]; simpl; lia
      end.
Qed.

Lemma X21_like_handlers_toggle_witness :
  App_handleLikePost conflict_server 3 true st0
  = App_handleLikePost (fun _ => conflict_server (UnlikePost 3)) 3 true st0.
Proof.
  destruct (X21_like_handlers_toggle conflict_server
              (fun _ => conflict_server (UnlikePost 3)) 3 true st0) as (H & _).
  apply H. reflexivity.
Defined.

(** ** The leaderboard over time and table order *)

Lemma length_filter_impl {A} (P Q : A → Prop) `{∀ a, Decision (P a)} `{∀ a, Decision (Q a)}
    (l : list A) :
  (∀ x, P x → Q x) → (length (filter P l) ≤ length (filter Q l))%nat.
Proof.
  intros HPQ. induction l as [|x l IH]; [done|].
  rewrite !filter_cons.
  destruct (decide (P x)) as [HP|HP], (decide (Q x)) as [HQ|HQ]; simpl; try lia.
  exfalso. by apply HQ, HPQ.
Qed.

Lemma length_filter_Permutation {A} (P : A → Prop) `{∀ a, Decision (P a)} (l k : list A) :
  l ≡ₚ k → length (filter P l) = length (filter P k).
Proof. intros Hp. by rewrite Hp. Qed.

(** X22: the order in which the like rows are stored does not change
    anybody's karma: two worlds whose tables hold the same rows, in any
    order, at the same clock reading give every user the same karma. *)
Theorem X22_karma_ignores_storage_order (w w' : World) (u : Z) :
  clock w = clock w' →
  post_likes w ≡ₚ post_likes w' →
  comment_likes w ≡ₚ comment_likes w' →
  dict_get (user_karma w) u 0 = dict_get (user_karma w') u 0.
Proof.
  intros Hclock Hp Hc. rewrite !user_karma_get.
  unfold qualifying_post_likes, qualifying_comment_likes, last_24h, timezone_now.
  rewrite Hclock.
  rewrite (length_filter_Permutation _ _ _
             (filter_Permutation (fun l => clock w' - timedelta_hours 24
                                           ≤ postlike_created_at l) _ _ Hp)).
  rewrite (length_filter_Permutation _ _ _
             (filter_Permutation (fun l => clock w' - timedelta_hours 24
                                           ≤ commentlike_created_at l) _ _ Hc)).
  done.
Qed.

Lemma X22_karma_ignores_storage_order_witness :
  dict_get (user_karma world_C) 1 0 = dict_get (user_karma world_C_swapped) 1 0.
Proof.
  apply (X22_karma_ignores_storage_order world_C world_C_swapped 1).
  - reflexivity.
  - apply Permutation_swap.
  - reflexivity.
Defined.

(** X23: the leaderboard is empty exactly when no like of either table
    passes the window filter. *)
Theorem X23_leaderboard_empty_iff_no_qualifying_like (w : World) :
  leaderboard w = [] ↔
  qualifying_post_likes w = [] ∧ qualifying_comment_likes w = [].
Proof.
  assert (leaderboard w = [] ↔ user_karma w = []) as ->.
  { split.
    - intros H. assert (length (leaderboard w) = 0%nat) as Hlen by by rewrite H.
      unfold leaderboard in Hlen. rewrite length_take in Hlen.
      rewrite (Permutation_length (sorted_reverse_Permutation snd (user_karma w))) in Hlen.
      destruct (user_karma w); [done|]. simpl in Hlen. lia.
    - intros H. unfold leaderboard. by rewrite H. }
  split.
  - intros H.
    assert (∀ u, u ∉ (user_karma w).*1) as Hno
      by (intros u; rewrite H; apply not_elem_of_nil).
    split.
    + destruct (qualifying_post_likes w) as [|l t] eqn:E; [done|].
      exfalso. apply (Hno (post_author (postlike_post l))).
      apply user_karma_elem. left. rewrite E, fmap_cons. left.
    + destruct (qualifying_comment_likes w) as [|l t] eqn:E; [done|].
      exfalso. apply (Hno (comment_author (commentlike_comment l))).
      apply user_karma_elem. right. rewrite E, fmap_cons. left.
  - intros [Hp Hc]. destruct (user_karma w) as [|[u k] d] eqn:E; [done|].
    assert (u ∈ (user_karma w).*1) as Hu by (rewrite E, fmap_cons; left).
    apply user_karma_elem in Hu. rewrite Hp, Hc in Hu.
    destruct Hu as [Hu|Hu]; by apply not_elem_of_nil in Hu.
Qed.

(** X24: without new likes karma only decays: on the same tables a later
    clock reading gives no user more karma than an earlier one. *)
Theorem X24_karma_decays_with_time (w w' : World) (u : Z) :
  post_likes w = post_likes w' →
  comment_likes w = comment_likes w' →
  clock w ≤ clock w' →
  dict_get (user_karma w') u 0 ≤ dict_get (user_karma w) u 0.
Proof.
  intros Hp Hc Hclock. rewrite !user_karma_get.
  unfold qualifying_post_likes, qualifying_comment_likes, last_24h, timezone_now.
  rewrite Hp, Hc, !list_filter_filter.
  pose proof (length_filter_impl
    (fun l => post_author (postlike_post l) = u
              ∧ clock w' - timedelta_hours 24 ≤ postlike_created_at l)
    (fun l => post_author (postlike_post l) = u
              ∧ clock w - timedelta_hours 24 ≤ postlike_created_at l)
    (post_likes w')) as H1.
  pose proof (length_filter_impl
    (fun l => comment_author (commentlike_comment l) = u
              ∧ clock w' - timedelta_hours 24 ≤ commentlike_created_at l)
    (fun l => comment_author (commentlike_comment l) = u
              ∧ clock w - timedelta_hours 24 ≤ commentlike_created_at l)
    (comment_likes w')) as H2.
  assert (∀ a b : nat, (a ≤ b)%nat → Z.of_nat a ≤ Z.of_nat b) as Hz by (intros; lia).
  apply Z.add_le_mono; [apply Z.mul_le_mono_nonneg_l; [lia|]|]; apply Hz.
  - apply H1. intros l [? ?]. split; [done|lia].
  - apply H2. intros l [? ?]. split; [done|lia].
Qed.

Lemma X24_karma_decays_with_time_witness :
  dict_get (user_karma world_C_later) 1 0 ≤ dict_get (user_karma world_C) 1 0.
Proof.
  apply (X24_karma_decays_with_time world_C world_C_later 1).
  - reflexivity.
  - reflexivity.
  - vm_compute. intros H. discriminate H.
Defined.

(** X25: the grouping composes with concatenation and does not depend on
    the order of the input beyond the order inside a bucket: the bucket
    of a parent for [l1 ++ l2] is its bucket for [l1] followed by its
    bucket for [l2], and a reordered input gives every parent the same
    comments. *)
Theorem X25_grouping_composes (l1 l2 : list Comment) (p : option Z) :
  default [] (build_comment_tree (l1 ++ l2) !! p)
  = default [] (build_comment_tree l1 !! p) ++ default [] (build_comment_tree l2 !! p) ∧
  (∀ l1', l1 ≡ₚ l1' →
     default [] (build_comment_tree l1 !! p) ≡ₚ default [] (build_comment_tree l1' !! p)).
Proof.
  split.
  - rewrite !build_comment_tree_bucket. unfold children_of. apply filter_app.
  - intros l1' Hp. rewrite !build_comment_tree_bucket. unfold children_of.
    by rewrite Hp.
Qed.

Lemma X25_grouping_composes_witness :
  default [] (build_comment_tree comments_A !! Some 1)
  ≡ₚ default [] (build_comment_tree (reverse comments_A) !! Some 1).
Proof.
  destruct (X25_grouping_composes comments_A [] (Some 1)) as [_ H].
  apply H. symmetry. apply reverse_Permutation.
Defined.

(** ** The order of tied users *)

Lemma combine_karma_keys d rows :
  NoDup rows.*1 →
  (combine_karma d rows).*1 = d.*1 ++ filter (fun u => u ∉ d.*1) rows.*1.
Proof.
  unfold combine_karma. revert d.
  induction rows as [|e rows IH]; intros d Hnd; [by rewrite app_nil_r|].
  rewrite fmap_cons in Hnd. apply NoDup_cons in Hnd as [He Hnd].
  cbn [foldl]. rewrite IH by done. rewrite dict_set_keys, fmap_cons, filter_cons.
  destruct (decide (e.1 ∈ d.*1)) as [Hin|Hin].
  - destruct (decide (e.1 ∉ d.*1)); done.
  - destruct (decide (e.1 ∉ d.*1)); [|done].
    rewrite <- app_assoc. simpl. do 2 f_equal.
    apply filter_ext_elem. intros x Hx. rewrite elem_of_app, list_elem_of_singleton.
    split; [tauto|]. intros Hxd [? | ->]; done.
Qed.

Lemma filter_not_in_nil (l : list Z) : filter (fun u => u ∉ ([] : list Z)) l = l.
Proof.
  induction l as [|x l IH]; [done|]. rewrite filter_cons.
  destruct (decide (x ∉ [])) as [_|Hx]; [by f_equal|].
  exfalso. apply Hx, not_elem_of_nil.
Qed.

Lemma karma_mapping_keys post_rows comment_rows :
  NoDup post_rows.*1 → NoDup comment_rows.*1 →
  (karma_mapping post_rows comment_rows).*1
  = post_rows.*1 ++ filter (fun u => u ∉ post_rows.*1) comment_rows.*1.
Proof.
  intros Hp Hc. unfold karma_mapping.
  rewrite (combine_karma_keys _ comment_rows Hc), (combine_karma_keys [] post_rows Hp).
  change (([] : list (Z * Z)).*1) with ([] : list Z).
  by rewrite app_nil_l, filter_not_in_nil.
Qed.

Lemma lookup_pair_sublist {A} (l : list A) (i j : nat) (a b : A) :
  (i < j)%nat → l !! i = Some a → l !! j = Some b → [a; b] `sublist_of` l.
Proof.
  revert i j. induction l as [|x l IH]; intros i j Hij Ha Hb; [done|].
  destruct i as [|i]; destruct j as [|j]; try lia; simpl in *.
  - injection Ha as ->. apply sublist_skip, singleton_sublist_l.
    by eapply list_elem_of_lookup_2.
  - apply sublist_cons, (IH i j); [lia|done|done].
Qed.

Lemma sublist_filter_mono {A} (P : A → Prop) `{∀ a, Decision (P a)} (l1 l2 : list A) :
  l1 `sublist_of` l2 → filter P l1 `sublist_of` filter P l2.
Proof.
  induction 1 as [|x l1 l2 _ IH|x l1 l2 _ IH]; [done| |].
  - rewrite !filter_cons. destruct (decide (P x)); [by apply sublist_skip|done].
  - rewrite filter_cons. destruct (decide (P x)); [by apply sublist_cons|done].
Qed.

Section StableSort.
Context {A : Type} (key : A → Z).

(** A list in descending key order is determined by its elements of each
    key, in their order: Python's [sorted(..., reverse=True)] and the
    insertion sort of this file, both stable, return the same list. *)
Lemma stable_descending_unique (l1 l2 : list A) :
  StronglySorted (fun a b => key b ≤ key a) l1 →
  StronglySorted (fun a b => key b ≤ key a) l2 →
  (∀ k, filter (fun a => key a = k) l1 = filter (fun a => key a = k) l2) →
  l1 = l2.
Proof.
  intros H1. revert l2. induction H1 as [|x l1 Hs1 IH Hx]; intros l2 H2 Hf.
  - destruct l2 as [|y l2]; [done|].
    specialize (Hf (key y)). rewrite filter_cons in Hf.
    destruct (decide (key y = key y)); done.
  - destruct H2 as [|y l2 Hs2 Hy].
    { specialize (Hf (key x)). rewrite filter_cons in Hf.
      destruct (decide (key x = key x)); done. }
    assert (key y ≤ key x) as Hyx.
    { assert (y ∈ filter (fun a => key a = key y) (x :: l1)) as Hin.
      { rewrite Hf. apply list_elem_of_filter. split; [done|left]. }
      apply list_elem_of_filter in Hin as [_ Hin].
      apply elem_of_cons in Hin as [->|Hin]; [lia|].
      by eapply Forall_forall in Hx. }
    assert (key x ≤ key y) as Hxy.
    { assert (x ∈ filter (fun a => key a = key x) (y :: l2)) as Hin.
      { rewrite <- Hf. apply list_elem_of_filter. split; [done|left]. }
      apply list_elem_of_filter in Hin as [_ Hin].
      apply elem_of_cons in Hin as [->|Hin]; [lia|].
      by eapply Forall_forall in Hy. }
    assert (key x = key y) as Hk by lia.
    pose proof (Hf (key x)) as Hfx. rewrite !filter_cons in Hfx.
    destruct (decide (key x = key x)); [|done].
    destruct (decide (key y = key x)); [|lia].
    injection Hfx as Heq Hfx. subst y. f_equal. apply IH; [done|].
    intros k. destruct (decide (k = key x)) as [->|Hne]; [done|].
    specialize (Hf k). rewrite !filter_cons in Hf.
    destruct (decide (key x = k)); [congruence|done].
Qed.
End StableSort.

(** C1 (amended): whatever order the database returns the rows of the
    two queries in, the users enter the karma mapping in the order of the
    post-like rows, followed by the users of the comment-like rows that
    were not among them; the output is in descending karma order; of two
    output rows with equal karma the earlier one belongs to the user who
    entered the mapping first; and the output is the only list that is in
    descending karma order and keeps the rows of equal karma in mapping
    order, cut to five, so it is fixed by the two row lists.  On the rows
    that the queries of this file return it is [leaderboard]. *)
Theorem C1_ties_keep_insertion_order (w : World) (post_rows comment_rows : list (Z * Z)) :
  post_rows ≡ₚ post_karma (last_24h w) (post_likes w) →
  comment_rows ≡ₚ comment_karma (last_24h w) (comment_likes w) →
  (karma_mapping post_rows comment_rows).*1
    = post_rows.*1 ++ filter (fun u => u ∉ post_rows.*1) comment_rows.*1 ∧
  StronglySorted (fun a b => b.2 ≤ a.2) (sorted_users post_rows comment_rows) ∧
  (∀ i j a b, (i < j)%nat →
     sorted_users post_rows comment_rows !! i = Some a →
     sorted_users post_rows comment_rows !! j = Some b →
     a.2 = b.2 →
     [a.1; b.1] `sublist_of` (karma_mapping post_rows comment_rows).*1) ∧
  (∀ l, StronglySorted (fun a b => b.2 ≤ a.2) l →
     (∀ k, filter (fun row => row.2 = k) l
           = filter (fun row => row.2 = k) (karma_mapping post_rows comment_rows)) →
     take 5 l = sorted_users post_rows comment_rows) ∧
  sorted_users (post_karma (last_24h w) (post_likes w))
               (comment_karma (last_24h w) (comment_likes w)) = leaderboard w.
Proof.
  intros Hp Hc.
  assert (NoDup post_rows.*1) as Hpn.
  { rewrite Hp. unfold post_karma. rewrite times5_keys. apply values_count_NoDup. }
  assert (NoDup comment_rows.*1) as Hcn.
  { rewrite Hc. apply values_count_NoDup. }
  split; [by apply karma_mapping_keys|]. unfold sorted_users.
  pose proof (sorted_reverse_sorted snd (karma_mapping post_rows comment_rows)) as Hs.
  split; [|split; [|split]].
  - rewrite <- (take_drop 5 (sorted_reverse snd (karma_mapping post_rows comment_rows))) in Hs.
    by apply StronglySorted_app_1_l in Hs.
  - intros i j a b Hij Ha Hb Hk.
    pose proof (lookup_pair_sublist _ i j a b Hij Ha Hb) as Hsub.
    apply (sublist_filter_mono (fun row : Z * Z => row.2 = b.2)) in Hsub.
    rewrite !filter_cons, filter_nil in Hsub.
    destruct (decide (a.2 = b.2)); [|done]. destruct (decide (b.2 = b.2)); [|done].
    assert ([a; b] `sublist_of` karma_mapping post_rows comment_rows) as Hsub'.
    { etrans; [exact Hsub|].
      etrans; [|apply (sublist_filter (fun row : Z * Z => row.2 = b.2))].
      rewrite <- (sorted_reverse_stable snd b.2 (karma_mapping post_rows comment_rows)).
      destruct (filter_take_prefix (fun row : Z * Z => row.2 = b.2) 5
                  (sorted_reverse snd (karma_mapping post_rows comment_rows))) as [k ->].
      by apply sublist_inserts_r. }
    by apply (fmap_sublist fst) in Hsub'.
  - intros l Hl Hf. f_equal.
    apply (stable_descending_unique snd); [done|done|].
    intros k. by rewrite Hf, sorted_reverse_stable.
  - reflexivity.
Qed.

Lemma C1_ties_keep_insertion_order_witness :
  (karma_mapping [(2, 5)] [(1, 5)]).*1 = [2; 1] ∧
  sorted_users [(2, 5)] [(1, 5)] = leaderboard world_tie.
Proof.
  destruct (C1_ties_keep_insertion_order world_tie [(2, 5)] [(1, 5)])
    as (Hkeys & _ & _ & _ & Hboard).
  - vm_compute. reflexivity.
  - vm_compute. reflexivity.
  - split; [exact Hkeys|exact Hboard].
Defined.
